(** * Record reconciliation in the rugby-data scrapers

    A shallow embedding of the reconciliation core of the repository
    (scraper/espn_api.py, scraper/sky_sports.py, scraper/espn_all_leagues.py
    and scraper/main.py) and the properties its specification states.

    Python values are modelled as follows.
    - [str] is [string]; the embedding covers ASCII text (on it
      [str.strip], [str.lower], [int] and [<] behave as written below).
    - [int] is [Z].
    - A CSV row (a [dict] from column name to text, as [csv.DictReader]
      yields it) is a [gmap string string]; [d.get(k, dflt)] is [get d k dflt],
      and [d[k]] on a missing key raises [KeyError], modelled by [None].
    - A dict whose iteration order matters is an association list. *)

From Stdlib Require Import ZArith Ascii String List Bool Lia.
From Stdlib Require OrderedTypeEx.
From stdpp Require Import base option list gmap strings fin_maps sorting pretty.

Local Open Scope string_scope.
Local Open Scope list_scope.
Local Open Scope Z_scope.

(** ** Python strings *)

Module PyStr.

(** [str.isspace] on ASCII: TAB, LF, VT, FF, CR, FS, GS, RS, US, SPACE. *)
Definition is_space (c : ascii) : bool :=
  let n := nat_of_ascii c in
  ((9 <=? n)%nat && (n <=? 13)%nat) || ((28 <=? n)%nat && (n <=? 32)%nat).

Fixpoint lstrip (s : string) : string :=
  match s with
  | String c t => if is_space c then lstrip t else s
  | EmptyString => EmptyString
  end.

(** [rstrip] drops the trailing run of white space: a character is kept
    when it is not white space or when something is kept after it. *)
Fixpoint rstrip (s : string) : string :=
  match s with
  | String c t =>
      match rstrip t with
      | EmptyString => if is_space c then EmptyString else String c EmptyString
      | t' => String c t'
      end
  | EmptyString => EmptyString
  end.

(** [s.strip()] *)
Definition strip (s : string) : string := rstrip (lstrip s).

Definition lower_char (c : ascii) : ascii :=
  let n := nat_of_ascii c in
  if ((65 <=? n)%nat && (n <=? 90)%nat)%bool then ascii_of_nat (n + 32) else c.

(** [s.lower()] *)
Fixpoint lower (s : string) : string :=
  match s with
  | String c t => String (lower_char c) (lower t)
  | EmptyString => EmptyString
  end.

(** [needle in hay] *)
Fixpoint contains (needle hay : string) : bool :=
  String.prefix needle hay ||
  match hay with
  | String _ t => contains needle t
  | EmptyString => false
  end.

(** [s[:n]] *)
Fixpoint take (n : nat) (s : string) : string :=
  match n, s with
  | S k, String c t => String c (take k t)
  | _, _ => EmptyString
  end.

(** [s.replace(old, new)] for a non-empty [old]: occurrences are replaced
    from the left and do not overlap; [skip] counts the characters of a
    replaced occurrence that are still to be passed over. *)
Fixpoint replace_from (old new : string) (skip : nat) (s : string) : string :=
  match s with
  | EmptyString => EmptyString
  | String c t =>
      match skip with
      | S k => replace_from old new k t
      | O =>
          if String.prefix old s
          then String.append new (replace_from old new (String.length old - 1) t)
          else String c (replace_from old new 0 t)
      end
  end.

Definition replace (old new s : string) : string := replace_from old new 0 s.

Definition digit_of (c : ascii) : option Z :=
  let n := nat_of_ascii c in
  if ((48 <=? n)%nat && (n <=? 57)%nat)%bool then Some (Z.of_nat n - 48) else None.

(** The digits of an [int] literal: at least one digit, single underscores
    allowed between digits only. [prev] tells whether the previous
    character was a digit. *)
Fixpoint digits (acc : Z) (prev : bool) (s : string) : option Z :=
  match s with
  | EmptyString => if prev then Some acc else None
  | String c t =>
      match digit_of c with
      | Some d => digits (10 * acc + d) true t
      | None =>
          if (Ascii.eqb c "_" && prev)%bool then digits acc false t else None
      end
  end.

(** [int(s)] in base ten; [None] stands for [ValueError]. *)
Definition int (s : string) : option Z :=
  match strip s with
  | String "-" t => Z.opp <$> digits 0 false t
  | String "+" t => digits 0 false t
  | t => digits 0 false t
  end.

(** [a < b] on strings, by code point. *)
Definition lt (a b : string) : bool := String.ltb a b.

(** [str(n)] and the f-string field [{n}] of an [int]. *)
Definition str_of_int (n : Z) : string := pretty n.

(** The f-string field [{n:02d}]: zero-padded to two characters, the sign
    counting as one. *)
Definition fmt_02d (n : Z) : string :=
  if (0 <=? n) && (n <? 10) then String.append "0" (pretty n) else pretty n.

End PyStr.


(** ** Appearance records

    The dict built per roster entry by both minutes calculators. The two
    substitution columns hold an [int] or the empty string. *)

Inductive cell : Type :=
| CInt (n : Z)
| CEmpty.

Definition populated (c : cell) : bool :=
  match c with CInt _ => true | CEmpty => false end.

Record appearance : Type := {
  season : string;
  date : string;
  home_team : string;
  away_team : string;
  team : string;
  player_name : string;
  shirt_number : string;
  position : string;
  is_starter : bool;
  sub_minute_off : cell;
  sub_minute_on : cell;
  minutes_played : Z;
  source : string
}.

(** ** scraper/espn_api.py *)

Module espn_api.

Record athlete : Type := {
  a_id : string;
  a_name : string;
  a_position : string
}.

Record match_event : Type := {
  e_type : string;
  e_minute : string;
  e_minute_seconds : Z;
  e_team_id : string;
  e_athletes : list athlete
}.

Record match_info : Type := {
  mi_espn_match_id : string;
  mi_season : string;
  mi_date : string;
  mi_home_team : string;
  mi_away_team : string;
  mi_home_score : Z;
  mi_away_score : Z;
  mi_venue : string;
  mi_match_events : list match_event
}.

Record player : Type := {
  p_id : string;
  p_name : string;
  p_jersey : string;
  p_position : string;
  p_home_away : string
}.

(** The pair [(sub_on_events, sub_off_events)]: player id to minute. *)
Definition sub_maps : Type := gmap string Z * gmap string Z.

(** Body of [for athlete in event["athletes"]]. *)
Definition record_athlete (etype : string) (minute_int : Z)
    (subs : sub_maps) (athlete : athlete) : sub_maps :=
  let pid := a_id athlete in
  if PyStr.contains "substitute on" etype || PyStr.contains "sub on" etype
  then (<[pid := minute_int]> subs.1, subs.2)
  else if PyStr.contains "substitute off" etype || PyStr.contains "sub off" etype
  then (subs.1, <[pid := minute_int]> subs.2)
  else subs.

(** Body of [for event in match_events]; an event whose minute does not
    parse is skipped ([continue]). *)
Definition scan_event (subs : sub_maps) (event : match_event) : sub_maps :=
  let etype := PyStr.lower (e_type event) in
  match PyStr.int (e_minute event) with
  | None => subs
  | Some minute_int =>
      fold_left (record_athlete etype minute_int) (e_athletes event) subs
  end.

Definition scan_events (match_events : list match_event) : sub_maps :=
  fold_left scan_event match_events (∅, ∅).

(** Body of [for player in players]: the appended dict. *)
Definition player_appearance (info : match_info) (subs : sub_maps)
    (team_name : string) (player : player) : appearance :=
  let pid := p_id player in
  let jersey := p_jersey player in
  let jersey_num := default 0 (PyStr.int jersey) in
  let starter := (1 <=? jersey_num) && (jersey_num <=? 15) in
  let '(played, off, on) :=
    if starter then
      match subs.2 !! pid with
      | Some sub_off_min => (sub_off_min, CInt sub_off_min, CInt 0)
      | None => (80, CEmpty, CInt 0)
      end
    else
      match subs.1 !! pid with
      | Some sub_on_min => (80 - sub_on_min, CEmpty, CInt sub_on_min)
      | None => (0, CEmpty, CEmpty)
      end in
  {| season := mi_season info;
     date := mi_date info;
     home_team := mi_home_team info;
     away_team := mi_away_team info;
     team := team_name;
     player_name := p_name player;
     shirt_number := jersey;
     position := p_position player;
     is_starter := starter;
     sub_minute_off := off;
     sub_minute_on := on;
     minutes_played := played;
     source := "espn" |}.

(** [rosters] is a dict from team name to player list, walked in
    insertion order. *)
Definition calculate_minutes (info : match_info)
    (rosters : list (string * list player)) : list appearance :=
  let subs := scan_events (mi_match_events info) in
  fold_left
    (fun appearances '(team_name, players) =>
       fold_left
         (fun appearances player =>
            appearances ++ [player_appearance info subs team_name player])
         players appearances)
    rosters [].

End espn_api.

(** ** scraper/sky_sports.py *)

Module sky_sports.

(** A player dict of the teams page. [sp_is_starter] is [None] when the
    key is absent; the two minutes are [None] for Python's [None]. *)
Record player : Type := {
  sp_jersey : string;
  sp_name : string;
  sp_is_starter : option bool;
  sp_sub_minute_off : option Z;
  sp_sub_minute_on : option Z
}.

(** The dict appended at the end of the player loop of
    [parse_teams_page], from the shirt number and name the patterns
    matched and the two minutes found. *)
Definition parsed_player (jersey name : string)
    (sub_minute_off sub_minute_on : option Z) : option player :=
  jersey_num ← PyStr.int jersey;
  Some {| sp_jersey := jersey;
          sp_name := name;
          sp_is_starter := Some ((1 <=? jersey_num) && (jersey_num <=? 15));
          sp_sub_minute_off := sub_minute_off;
          sp_sub_minute_on := sub_minute_on |}.

(** A match dict of the results page; it has no date key. *)
Record match_info : Type := {
  sm_href : string;
  sm_slug : string;
  sm_match_id : string;
  sm_home_team : string;
  sm_away_team : string;
  sm_home_score : option Z;
  sm_away_score : option Z;
  sm_date : option string
}.

(** Body of [for player in players]. The default of
    [player.get("is_starter", int(player["jersey"]) <= 15)] is evaluated
    before the lookup, so a shirt number that does not parse raises. *)
Definition player_appearance (info : match_info) (season : string)
    (team_name : string) (player : player) : option appearance :=
  jersey_num ← PyStr.int (sp_jersey player);
  let starter := default (jersey_num <=? 15) (sp_is_starter player) in
  let sub_off := sp_sub_minute_off player in
  let sub_on := sp_sub_minute_on player in
  let '(played, off, on) :=
    if starter then
      match sub_off with
      | Some m => (m, CInt m, CInt 0)
      | None => (80, CEmpty, CInt 0)
      end
    else
      match sub_on with
      | Some m => (80 - m, CEmpty, CInt m)
      | None => (0, CEmpty, CEmpty)
      end in
  Some {| season := season;
          date := default EmptyString (sm_date info);
          home_team := sm_home_team info;
          away_team := sm_away_team info;
          team := team_name;
          player_name := sp_name player;
          shirt_number := sp_jersey player;
          position := EmptyString;
          is_starter := starter;
          sub_minute_off := off;
          sub_minute_on := on;
          minutes_played := played;
          source := "sky_sports" |}.

Fixpoint team_appearances (info : match_info) (season team_name : string)
    (players : list player) (appearances : list appearance)
    : option (list appearance) :=
  match players with
  | [] => Some appearances
  | player :: rest =>
      a ← player_appearance info season team_name player;
      team_appearances info season team_name rest (appearances ++ [a])
  end.

Fixpoint all_appearances (info : match_info) (season : string)
    (teams_data : list (string * list player)) (appearances : list appearance)
    : option (list appearance) :=
  match teams_data with
  | [] => Some appearances
  | (team_name, players) :: rest =>
      appearances' ← team_appearances info season team_name players appearances;
      all_appearances info season rest appearances'
  end.

(** [None] stands for the [ValueError] of a shirt number that is not an
    integer literal. *)
Definition calculate_appearances (info : match_info)
    (teams_data : list (string * list player)) (season : string)
    : option (list appearance) :=
  all_appearances info season teams_data [].

End sky_sports.

(** ** CSV rows and insertion-ordered dicts *)

(** [d.get(k, dflt)] *)
Definition get (d : gmap string string) (k dflt : string) : string :=
  default dflt (d !! k).

(** A dict in insertion order. Assigning to a key that is present replaces
    the value where it stands; a new key goes to the end. *)
Fixpoint od_get {V : Type} (k : string) (d : list (string * V)) : option V :=
  match d with
  | [] => None
  | (k', v) :: rest => if decide (k = k') then Some v else od_get k rest
  end.

Fixpoint od_set {V : Type} (k : string) (v : V) (d : list (string * V))
    : list (string * V) :=
  match d with
  | [] => [(k, v)]
  | (k', v') :: rest =>
      if decide (k = k') then (k, v) :: rest else (k', v') :: od_set k v rest
  end.

(** [d.values()] *)
Definition od_values {V : Type} (d : list (string * V)) : list V := d.*2.

(** [l.sort(key=...)], with [lt x y] the test [key(x) < key(y)]. The sort
    is stable: an element goes after those that do not compare greater. *)
Fixpoint insert_by {A : Type} (lt : A → A → bool) (x : A) (l : list A)
    : list A :=
  match l with
  | [] => [x]
  | y :: rest => if lt x y then x :: l else y :: insert_by lt x rest
  end.

Definition sort_by {A : Type} (lt : A → A → bool) (l : list A) : list A :=
  fold_left (fun sorted x => insert_by lt x sorted) l [].

(** ** scraper/espn_all_leagues.py *)

Module espn_all_leagues.

Definition priority : gmap string Z :=
  list_to_map
    [("Six Nations", 1);
     ("Rugby Championship / Tri Nations", 1);
     ("Rugby World Cup", 1);
     ("British & Irish Lions", 1);
     ("2020 Tri Nations", 1);
     ("International Test Match", 2)].

(** [priority.get(match.get("tournament", EmptyString), 99)] *)
Definition match_priority (m : gmap string string) : Z :=
  default 99 (priority !! get m "tournament" EmptyString).

(** Body of the first loop. [None] is the [KeyError] of a row without
    the identifier column. *)
Definition pass1_step (seen_ids : list (string * gmap string string))
    (m : gmap string string) : option (list (string * gmap string string)) :=
  eid ← m !! "espn_match_id";
  match od_get eid seen_ids with
  | None => Some (od_set eid m seen_ids)
  | Some existing =>
      if match_priority m <? match_priority existing
      then Some (od_set eid m seen_ids)
      else Some seen_ids
  end.

Fixpoint pass1 (all_matches : list (gmap string string))
    (seen_ids : list (string * gmap string string))
    : option (list (string * gmap string string)) :=
  match all_matches with
  | [] => Some seen_ids
  | m :: rest => seen_ids' ← pass1_step seen_ids m; pass1 rest seen_ids'
  end.

(** [tuple(sorted([a, b]))]: the two are swapped when [b < a]. *)
Definition sorted_pair (a b : string) : string * string :=
  if PyStr.lt b a then (b, a) else (a, b).

(** [sig = (date, teams)] *)
Definition signature (m : gmap string string) : string * (string * string) :=
  let date := PyStr.take 10 (get m "date" EmptyString) in
  let teams := sorted_pair (get m "home_team" EmptyString)
                           (get m "away_team" EmptyString) in
  (date, teams).

(** Body of the second loop, on the pair [(sig_seen, result)]. The rows
    walked are the values of [seen_ids], stored under pairwise distinct
    identifiers, so that two of them are the same object exactly when
    they are equal rows: [m is not x] is inequality of rows. *)
Definition pass2_step
    (st : gmap (string * (string * string)) (gmap string string)
          * list (gmap string string))
    (m : gmap string string)
    : gmap (string * (string * string)) (gmap string string)
      * list (gmap string string) :=
  let sig := signature m in
  match st.1 !! sig with
  | None => (<[sig := m]> st.1, st.2 ++ [m])
  | Some existing =>
      if match_priority m <? match_priority existing
      then (<[sig := m]> st.1,
            filter (fun x => x ≠ existing) st.2 ++ [m])
      else st
  end.

Definition pass2 (survivors : list (gmap string string))
    : list (gmap string string) :=
  (fold_left pass2_step survivors (∅, [])).2.

Definition deduplicate_matches (all_matches : list (gmap string string))
    : option (list (gmap string string)) :=
  seen_ids ← pass1 all_matches [];
  Some (pass2 (od_values seen_ids)).

(** [key = (eid, player_name, team)] *)
Definition appearance_key (app : gmap string string)
    : string * string * string :=
  (get app "espn_match_id" EmptyString,
   get app "player_name" EmptyString,
   get app "team" EmptyString).

(** Body of the loop of [deduplicate_appearances], on [(seen, result)]. *)
Definition keep_appearance (valid_match_ids : gset string)
    (st : gset (string * string * string) * list (gmap string string))
    (app : gmap string string)
    : gset (string * string * string) * list (gmap string string) :=
  let eid := get app "espn_match_id" EmptyString in
  if decide (eid ∈ valid_match_ids) then
    let key := appearance_key app in
    if decide (key ∈ st.1) then st
    else ({[key]} ∪ st.1, st.2 ++ [app])
  else st.

Definition deduplicate_appearances (all_appearances : list (gmap string string))
    (valid_match_ids : gset string) : list (gmap string string) :=
  (fold_left (keep_appearance valid_match_ids) all_appearances (∅, [])).2.

Definition BASE_URL : string :=
  "https://site.api.espn.com/apis/site/v2/sports/rugby".

(** The scoreboard queries. [fetch_events url] stands for [fetch_json(url)]
    followed by the test [data and "events" in data]: [Some] of
    [data["events"]] when the test passes, [None] otherwise. *)
Section get_events.
Context {Event : Type} (event_id : Event → string).
Context (fetch_events : string → option (list Event)).

Definition get_events_yearly (league_id : string) (year : Z) : list Event :=
  let url := BASE_URL +:+ "/" +:+ league_id +:+ "/scoreboard?dates="
             +:+ PyStr.str_of_int year +:+ "0101-"
             +:+ PyStr.str_of_int year +:+ "1231" in
  default [] (fetch_events url).

(** Body of [for event in data["events"]]. *)
Definition add_event (all_events : list (string * Event)) (event : Event)
    : list (string * Event) :=
  let eid := event_id event in
  match od_get eid all_events with
  | None => od_set eid event all_events
  | Some _ => all_events
  end.

Definition month_url (league_id : string) (year month last_day : Z) : string :=
  let start := PyStr.str_of_int year +:+ PyStr.fmt_02d month +:+ "01" in
  let end_ := PyStr.str_of_int year +:+ PyStr.fmt_02d month
              +:+ PyStr.str_of_int last_day in
  BASE_URL +:+ "/" +:+ league_id +:+ "/scoreboard?dates="
  +:+ start +:+ "-" +:+ end_.

(** Body of [for month in range(...)]. *)
Definition fetch_month (league_id : string) (year : Z) (last_day : Z → Z)
    (all_events : list (string * Event)) (month : Z)
    : list (string * Event) :=
  match fetch_events (month_url league_id year month (last_day month)) with
  | Some events => fold_left add_event events all_events
  | None => all_events
  end.

Definition last_day_rc (month : Z) : Z :=
  if bool_decide (month ∈ [7; 8; 10; 12]) then 31 else 30.

Definition get_events_monthly_rc (league_id : string) (year : Z) : list Event :=
  if year <=? 2011 then get_events_yearly league_id year
  else od_values
         (fold_left (fetch_month league_id year last_day_rc) (seqZ 7 6) []).

Definition last_day_full (month : Z) : Z :=
  if bool_decide (month ∈ [1; 3; 5; 7; 8; 10; 12]) then 31
  else if bool_decide (month ≠ 2) then 30 else 28.

Definition get_events_monthly_full (league_id : string) (year : Z) : list Event :=
  od_values
    (fold_left (fetch_month league_id year last_day_full) (seqZ 1 12) []).

End get_events.

(** [(date, home_team, away_team)], the key of [sn_match_lookup]. *)
Definition lookup_key (m : gmap string string) : string * string * string :=
  (PyStr.take 10 (get m "date" EmptyString),
   get m "home_team" EmptyString,
   get m "away_team" EmptyString).

(** Body of [for m in sn_matches], on the rows passed so far and
    [sn_match_lookup]. *)
Definition tag_match
    (st : list (gmap string string) * gmap (string * string * string) string)
    (m : gmap string string)
    : list (gmap string string) * gmap (string * string * string) string :=
  let m := <["tournament" := "Six Nations"]> m in
  let key := lookup_key m in
  (st.1 ++ [m], <[key := get m "espn_match_id" EmptyString]> st.2).

(** Body of [for a in sn_apps]. *)
Definition tag_appearance
    (sn_match_lookup : gmap (string * string * string) string)
    (a : gmap string string) : gmap string string :=
  let a := <["tournament" := "Six Nations"]> a in
  let key := lookup_key a in
  <["espn_match_id" := default EmptyString (sn_match_lookup !! key)]> a.

(** Body of [for league_key in LEAGUES], on the two tables a league has on
    disk ([None] for a file that does not exist). *)
Definition extend_league
    (st : list (gmap string string) * list (gmap string string))
    (league : option (list (gmap string string))
              * option (list (gmap string string)))
    : list (gmap string string) * list (gmap string string) :=
  (st.1 ++ default [] league.1, st.2 ++ default [] league.2).

Definition date_lt (a b : gmap string string) : bool :=
  PyStr.lt (get a "date" EmptyString) (get b "date" EmptyString).

(** [(date, home_team, team, shirt_number)], the sort key of the
    appearances. *)
Definition appearance_sort_key (a : gmap string string) : list string :=
  [get a "date" EmptyString; get a "home_team" EmptyString;
   get a "team" EmptyString; get a "shirt_number" EmptyString].

(** Tuples of strings of one length compared as Python compares them: by
    the first place where they differ. *)
Fixpoint tuple_lt (a b : list string) : bool :=
  match a, b with
  | x :: a', y :: b' => if decide (x = y) then tuple_lt a' b' else PyStr.lt x y
  | _, _ => false
  end.

Definition appearance_lt (a b : gmap string string) : bool :=
  tuple_lt (appearance_sort_key a) (appearance_sort_key b).

(** The two tables [combine_all_leagues] returns, from the tables on disk:
    the Six Nations matches and appearances and, in the order of [LEAGUES],
    those of each league. [None] is the [KeyError] of a match row without
    identifier. *)
Definition combine_all_leagues
    (sn_matches sn_apps : option (list (gmap string string)))
    (leagues : list (option (list (gmap string string))
                     * option (list (gmap string string))))
    : option (list (gmap string string) * list (gmap string string)) :=
  let six_nations :=
    match sn_matches with
    | Some sn_matches =>
        let tagged := fold_left tag_match sn_matches ([], ∅) in
        (tagged.1,
         match sn_apps with
         | Some sn_apps => tag_appearance tagged.2 <$> sn_apps
         | None => []
         end)
    | None => ([], [])
    end in
  let all := fold_left extend_league leagues six_nations in
  deduped_matches ← deduplicate_matches all.1;
  ids ← mapM (fun m => m !! "espn_match_id") deduped_matches;
  let valid_ids : gset string := list_to_set ids in
  let deduped_apps := deduplicate_appearances all.2 valid_ids in
  Some (sort_by date_lt deduped_matches, sort_by appearance_lt deduped_apps).

End espn_all_leagues.

(** ** scraper/main.py *)

Module main.

Definition normalize_team (name : string) : string :=
  PyStr.lower (PyStr.strip name).

(** The replacement maps the apostrophe to itself in the source. *)
Definition normalize_name (name : string) : string :=
  PyStr.replace "'" "'" (PyStr.lower (PyStr.strip name)).

(** A row of [final_matches]: the nine-key dict built in [merge_data]. *)
Record final_match : Type := {
  fm_season : string;
  fm_date : string;
  fm_home_team : string;
  fm_away_team : string;
  fm_home_score : string;
  fm_away_score : string;
  fm_venue : string;
  fm_espn_match_id : string;
  fm_sky_match_id : string
}.

Definition of_espn (m : gmap string string) : final_match :=
  {| fm_season := get m "season" EmptyString;
     fm_date := get m "date" EmptyString;
     fm_home_team := get m "home_team" EmptyString;
     fm_away_team := get m "away_team" EmptyString;
     fm_home_score := get m "home_score" EmptyString;
     fm_away_score := get m "away_score" EmptyString;
     fm_venue := get m "venue" EmptyString;
     fm_espn_match_id := get m "espn_match_id" EmptyString;
     fm_sky_match_id := EmptyString |}.

Definition of_sky (sm : gmap string string) : final_match :=
  {| fm_season := get sm "season" EmptyString;
     fm_date := get sm "date" EmptyString;
     fm_home_team := get sm "home_team" EmptyString;
     fm_away_team := get sm "away_team" EmptyString;
     fm_home_score := get sm "home_score" EmptyString;
     fm_away_score := get sm "away_score" EmptyString;
     fm_venue := EmptyString;
     fm_espn_match_id := EmptyString;
     fm_sky_match_id := get sm "sky_match_id" EmptyString |}.

(** [fm["sky_match_id"] = v] *)
Definition set_sky_match_id (fm : final_match) (v : string) : final_match :=
  {| fm_season := fm_season fm;
     fm_date := fm_date fm;
     fm_home_team := fm_home_team fm;
     fm_away_team := fm_away_team fm;
     fm_home_score := fm_home_score fm;
     fm_away_score := fm_away_score fm;
     fm_venue := fm_venue fm;
     fm_espn_match_id := fm_espn_match_id fm;
     fm_sky_match_id := v |}.

(** The condition of the inner loop. *)
Definition key_match (fm : final_match) (sm : gmap string string) : bool :=
  bool_decide (normalize_team (fm_home_team fm)
               = normalize_team (get sm "home_team" EmptyString))
  && bool_decide (normalize_team (fm_away_team fm)
                  = normalize_team (get sm "away_team" EmptyString))
  && bool_decide (fm_season fm = get sm "season" EmptyString).

(** The inner loop [for fm in final_matches]: [Some] of the updated table
    when a row matched (the loop stops there), [None] when none did. *)
Fixpoint backfill (sm : gmap string string) (final_matches : list final_match)
    : option (list final_match) :=
  match final_matches with
  | [] => None
  | fm :: rest =>
      if key_match fm sm
      then Some (set_sky_match_id fm (get sm "sky_match_id" EmptyString) :: rest)
      else cons fm <$> backfill sm rest
  end.

(** Body of [for sm in sky_matches]. *)
Definition add_sky_match (final_matches : list final_match)
    (sm : gmap string string) : list final_match :=
  match backfill sm final_matches with
  | Some updated => updated
  | None => final_matches ++ [of_sky sm]
  end.

(** Tuples [(season, date)] compared as Python compares tuples. *)
Definition sort_key_lt (a b : final_match) : bool :=
  if decide (fm_season a = fm_season b)
  then PyStr.lt (fm_date a) (fm_date b)
  else PyStr.lt (fm_season a) (fm_season b).

(** [list.sort] is stable: a row goes after the rows that do not
    compare greater. *)
Fixpoint insert_sorted (x : final_match) (l : list final_match)
    : list final_match :=
  match l with
  | [] => [x]
  | y :: rest =>
      if sort_key_lt x y then x :: l else y :: insert_sorted x rest
  end.

Definition sort_matches (l : list final_match) : list final_match :=
  fold_left (fun sorted x => insert_sorted x sorted) l [].

Definition merge_matches (espn_matches sky_matches : list (gmap string string))
    : list final_match :=
  sort_matches (fold_left add_sky_match sky_matches (of_espn <$> espn_matches)).

(** One term of the generator under [any]: [and] stops at the first
    false operand, [a[k]] raises [KeyError] when the column is absent. *)
Definition same_appearance (a sa : gmap string string) : option bool :=
  src ← a !! "source";
  if negb (bool_decide (src = "espn")) then Some false else
  home ← a !! "home_team";
  if negb (bool_decide (normalize_team home
                        = normalize_team (get sa "home_team" EmptyString)))
  then Some false else
  away ← a !! "away_team";
  if negb (bool_decide (normalize_team away
                        = normalize_team (get sa "away_team" EmptyString)))
  then Some false else
  seas ← a !! "season";
  if negb (bool_decide (seas = get sa "season" EmptyString)) then Some false else
  name ← a !! "player_name";
  Some (bool_decide (normalize_name name
                     = normalize_name (get sa "player_name" EmptyString))).

(** [any(... for a in espn_appearances)]: stops at the first true term. *)
Fixpoint has_espn (sa : gmap string string)
    (espn_appearances : list (gmap string string)) : option bool :=
  match espn_appearances with
  | [] => Some false
  | a :: rest =>
      b ← same_appearance a sa;
      if b : bool then Some true else has_espn sa rest
  end.

Fixpoint add_sky_appearances (espn_appearances : list (gmap string string))
    (sky_appearances : list (gmap string string))
    (final_appearances : list (gmap string string))
    : option (list (gmap string string)) :=
  match sky_appearances with
  | [] => Some final_appearances
  | sa :: rest =>
      b ← has_espn sa espn_appearances;
      add_sky_appearances espn_appearances rest
        (if b : bool then final_appearances else final_appearances ++ [sa])
  end.

Definition merge_appearances
    (espn_appearances sky_appearances : list (gmap string string))
    : option (list (gmap string string)) :=
  add_sky_appearances espn_appearances sky_appearances
    (fold_left (fun final a => final ++ [a]) espn_appearances []).

(** The two tables [merge_data] writes, from the four it reads. *)
Definition merge_data
    (espn_matches espn_appearances sky_matches sky_appearances
       : list (gmap string string))
    : option (list final_match * list (gmap string string)) :=
  let final_matches := merge_matches espn_matches sky_matches in
  final_appearances ← merge_appearances espn_appearances sky_appearances;
  Some (final_matches, final_appearances).

End main.

(** * Vocabulary of the specification

    The definitions below are not code of the repository: they name what
    the specification talks about, so that the theorems can be stated in
    its words. *)

(** ** The minutes rule *)

Import espn_api sky_sports.

(** The lowered type text marks a substitution on. *)
Definition marks_on (etype : string) : bool :=
  PyStr.contains "substitute on" etype || PyStr.contains "sub on" etype.

(** The lowered type text marks a substitution off; a text with both
    markers counts as a substitution on, which the scan tests first. *)
Definition marks_off (etype : string) : bool :=
  negb (marks_on etype)
  && (PyStr.contains "substitute off" etype || PyStr.contains "sub off" etype).

(** The minute [event] records for player [pid], when its type is marked,
    its athletes include [pid] and its minute parses. *)
Definition event_minute_for (mark : string → bool) (pid : string)
    (event : match_event) : option Z :=
  if mark (PyStr.lower (e_type event))
     && bool_decide (pid ∈ a_id <$> e_athletes event)
  then PyStr.int (e_minute event)
  else None.

(** The recorded substitution minute of [pid]: that of the last event of
    the timeline that records one. *)
Definition recorded (mark : string → bool) (events : list match_event)
    (pid : string) : option Z :=
  last (omap (event_minute_for mark pid) events).

(** The shirt number parses to an integer in [1, 15]. *)
Definition starter_shirt (jersey : string) : bool :=
  match PyStr.int jersey with
  | Some n => (1 <=? n) && (n <=? 15)
  | None => false
  end.

(** The rule of the specification for one appearance [a], from the role
    and the recorded off and on minutes of its roster entry. *)
Definition minutes_rule (starter : bool) (off on : option Z) (a : appearance)
    : Prop :=
  is_starter a = starter ∧
  if starter then
    match off with
    | Some m => minutes_played a = m ∧ sub_minute_off a = CInt m
    | None => minutes_played a = 80 ∧ sub_minute_off a = CEmpty
    end
  else
    match on with
    | Some m => minutes_played a = 80 - m ∧ sub_minute_on a = CInt m
    | None => minutes_played a = 0 ∧ sub_minute_on a = CEmpty
    end.

(** The roster entries in the order the calculators walk them. *)
Definition roster_entries {P : Type} (rosters : list (string * list P))
    : list (string * P) :=
  flat_map (fun tp => pair tp.1 <$> tp.2) rosters.

(** What the two substitution columns hold, by role. *)
Definition column_rule (a : appearance) : Prop :=
  (is_starter a = true → sub_minute_on a = CInt 0) ∧
  (is_starter a = false → sub_minute_off a = CEmpty) ∧
  (populated (sub_minute_off a) && populated (sub_minute_on a) = true ↔
   is_starter a = true ∧ populated (sub_minute_off a) = true).

(** The substitution minute an appearance is computed from: the off minute
    of a starter, the on minute of a non-starter. *)
Definition minute_used (starter : bool) (off on : option Z) : option Z :=
  if starter then off else on.

(** The minute, when there is one, lies in [0, 80]. *)
Definition within_match (minute : option Z) : Prop :=
  ∀ m, minute = Some m → 0 ≤ m ≤ 80.


(** The player dict is one the teams page parser builds. *)
Definition parsed_entry (tp : string * sky_sports.player) : Prop :=
  ∃ jersey name off on, parsed_player jersey name off on = Some tp.2.

Definition espn_entry_rule (info : espn_api.match_info)
    (tp : string * espn_api.player) (a : appearance) : Prop :=
  team a = tp.1 ∧ player_name a = p_name tp.2 ∧
  minutes_rule (starter_shirt (p_jersey tp.2))
    (recorded marks_off (mi_match_events info) (p_id tp.2))
    (recorded marks_on (mi_match_events info) (p_id tp.2)) a.

Definition sky_entry_rule (tp : string * sky_sports.player) (a : appearance)
    : Prop :=
  team a = tp.1 ∧ player_name a = sp_name tp.2 ∧
  minutes_rule (starter_shirt (sp_jersey tp.2))
    (sp_sub_minute_off tp.2) (sp_sub_minute_on tp.2) a.

(** Sample timelines and rosters. *)
Definition sample_athlete (pid : string) : athlete :=
  {| a_id := pid; a_name := EmptyString; a_position := EmptyString |}.

Definition sample_event (type minute pid : string) : match_event :=
  {| e_type := type; e_minute := minute; e_minute_seconds := 0;
     e_team_id := "8"; e_athletes := [sample_athlete pid] |}.

Definition sample_info (events : list match_event) : espn_api.match_info :=
  {| mi_espn_match_id := "espn-1"; mi_season := "2022"; mi_date := "2022-08-06";
     mi_home_team := "New Zealand"; mi_away_team := "Australia";
     mi_home_score := 0; mi_away_score := 0; mi_venue := EmptyString;
     mi_match_events := events |}.

Definition sample_player (pid jersey : string) : espn_api.player :=
  {| p_id := pid; p_name := pid; p_jersey := jersey;
     p_position := EmptyString; p_home_away := "home" |}.

Definition sample_rosters : list (string * list espn_api.player) :=
  [("New Zealand",
    [sample_player "p9" "9"; sample_player "p10" "10";
     sample_player "p21" "21"; sample_player "p22" "22"])].

Definition regular_events : list match_event :=
  [sample_event "Substitute Off" "55" "p10";
   sample_event "Substitute On" "63" "p21";
   sample_event "Try" "70" "p9";
   sample_event "Substitute Off" "40+2" "p9"].

Definition late_events : list match_event :=
  [sample_event "Substitute Off" "85" "p10";
   sample_event "Substitute On" "83" "p21"].

(** The regular timeline followed by a try at minute 82. *)
Definition late_try_events : list match_event :=
  regular_events ++ [sample_event "Try" "82" "p9"].

Definition sample_sky_info : sky_sports.match_info :=
  {| sm_href := "/rugby-union/england-vs-wales/12345";
     sm_slug := "england-vs-wales"; sm_match_id := "12345";
     sm_home_team := "England"; sm_away_team := "Wales";
     sm_home_score := Some 20; sm_away_score := Some 13; sm_date := None |}.

Definition sample_sky_player (jersey : string) (off on : option Z)
    : sky_sports.player :=
  {| sp_jersey := jersey; sp_name := jersey;
     sp_is_starter := Some (starter_shirt jersey);
     sp_sub_minute_off := off; sp_sub_minute_on := on |}.

Definition sample_teams : list (string * list sky_sports.player) :=
  [("England",
    [sample_sky_player "9" None None; sample_sky_player "10" (Some 55) None;
     sample_sky_player "21" None (Some 63); sample_sky_player "22" None None])].

(** The four computed columns of an appearance. *)
Definition columns (a : appearance) : bool * cell * cell * Z :=
  (is_starter a, sub_minute_off a, sub_minute_on a, minutes_played a).

(** ** The deduplicators *)

Import espn_all_leagues.

(** The identifier column of a match row. *)
Definition ident (m : gmap string string) : string :=
  get m "espn_match_id" EmptyString.

(** [seen_ids] holds each row under its own identifier, once. *)
Definition keyed (seen : list (string * gmap string string)) : Prop :=
  NoDup seen.*1 ∧ ∀ k v, (k, v) ∈ seen → v !! "espn_match_id" = Some k.

(** [sig_seen] indexes [result] by signature, and no two rows of [result]
    share a signature. *)
Definition indexed
    (st : gmap (string * (string * string)) (gmap string string)
          * list (gmap string string)) : Prop :=
  (∀ s r, st.1 !! s = Some r ↔ r ∈ st.2 ∧ signature r = s) ∧
  NoDup (signature <$> st.2).

(** Sample match rows. *)
Definition match_row (eid tournament date home away : string)
    : gmap string string :=
  list_to_map
    [("season", PyStr.take 4 date); ("tournament", tournament); ("date", date);
     ("home_team", home); ("away_team", away); ("home_score", "20");
     ("away_score", "13"); ("venue", EmptyString); ("espn_match_id", eid)].

Definition tri_nations_row : gmap string string :=
  match_row "espn-1" "Rugby Championship / Tri Nations" "2022-08-06"
    "New Zealand" "Australia".

Definition test_match_row : gmap string string :=
  match_row "itm-9" "International Test Match" "2022-08-06"
    "New Zealand" "Australia".

Definition lower_case_row : gmap string string :=
  match_row "itm-10" "International Test Match" "2022-08-06"
    " new zealand" "Australia".

(** One fixture of 2020 as three feeds return it. *)
Definition championship_2020_row : gmap string string :=
  match_row "rc-4" "Rugby Championship / Tri Nations" "2020-10-31"
    "Australia" "New Zealand".

Definition tri_nations_2020_row : gmap string string :=
  match_row "tn-4" "2020 Tri Nations" "2020-10-31" "Australia" "New Zealand".

Definition test_match_2020_row : gmap string string :=
  match_row "itm-4" "International Test Match" "2020-10-31"
    "New Zealand" "Australia".

(** Another fixture under the identifier of [tri_nations_2020_row]. *)
Definition reused_id_row : gmap string string :=
  match_row "tn-4" "Six Nations" "2020-10-31" "Ireland" "Italy".

Definition undated_row (eid : string) : gmap string string :=
  delete "date" (match_row eid "International Test Match" EmptyString
                   "Fiji" "Samoa").


(** The appearance belongs to a canonical match. *)
Definition canonical (valid_match_ids : gset string) (app : gmap string string)
    : Prop :=
  get app "espn_match_id" EmptyString ∈ valid_match_ids.

#[global] Instance canonical_dec (valid_match_ids : gset string)
    (app : gmap string string) : Decision (canonical valid_match_ids app).
Proof. unfold canonical. apply _. Defined.

(** ** The merger *)

Import main.

(** The key of the appearance comparison, read with [get]. *)
Definition merge_key (r : gmap string string)
    : string * string * string * string :=
  (normalize_team (get r "home_team" EmptyString),
   normalize_team (get r "away_team" EmptyString),
   get r "season" EmptyString,
   normalize_name (get r "player_name" EmptyString)).

(** [a] is a row tagged as Source A's that has the key of [sa]. *)
Definition covers (a sa : gmap string string) : Prop :=
  a !! "source" = Some "espn" ∧ merge_key a = merge_key sa.

#[global] Instance covers_dec (a sa : gmap string string) : Decision (covers a sa).
Proof. unfold covers. apply _. Defined.

(** Source A has a tagged row with the key of [sa]. *)
Definition covered (espn_appearances : list (gmap string string))
    (sa : gmap string string) : Prop :=
  Exists (fun a => covers a sa) espn_appearances.

(** A row of the Source-A table with the five columns the comparison
    indexes. *)
Definition comparable (a : gmap string string) : Prop :=
  Forall (fun k => is_Some (a !! k))
    ["source"; "home_team"; "away_team"; "season"; "player_name"].







(** Sample rows. *)
Definition appearance_row (source home away season player shirt : string)
    : gmap string string :=
  list_to_map
    [("season", season); ("date", EmptyString); ("home_team", home);
     ("away_team", away); ("team", home); ("player_name", player);
     ("shirt_number", shirt); ("position", EmptyString); ("is_starter", "True");
     ("sub_minute_off", EmptyString); ("sub_minute_on", "0");
     ("minutes_played", "80"); ("source", source)].

Definition espn_warburton : gmap string string :=
  appearance_row "espn" "England" "Wales" "2019-20" "Sam Warburton" "7".

Definition espn_warburton_again : gmap string string :=
  appearance_row "espn" "England" "Wales" "2019-20" "sam warburton" "20".

Definition untagged_warburton : gmap string string :=
  appearance_row "sky_sports" "England" "Wales" "2019-20" "Sam Warburton" "7".

Definition sky_warburton : gmap string string :=
  appearance_row "sky_sports" " england" "Wales " "2019-20" "Sam Warburton " "7".

Definition sky_biggar : gmap string string :=
  appearance_row "sky_sports" "England" "Wales" "2019-20" "Dan Biggar" "10".



(** * Properties *)

Example strip_ex : PyStr.strip "  New Zealand " = "New Zealand".
Proof. reflexivity. Qed.
Example lower_ex : PyStr.lower "New Zealand" = "new zealand".
Proof. reflexivity. Qed.
Example int_ex1 : PyStr.int "63" = Some 63.
Proof. reflexivity. Qed.
Example int_ex2 : PyStr.int "40+2" = None.
Proof. reflexivity. Qed.
Example int_ex3 : PyStr.int EmptyString = None.
Proof. reflexivity. Qed.
Example int_ex4 : PyStr.int " -5 " = Some (-5).
Proof. reflexivity. Qed.
Example contains_ex : PyStr.contains "sub on" "tactical sub on" = true.
Proof. reflexivity. Qed.
Example replace_ex : PyStr.replace "ab" "x" "cababa" = "cxxa".
Proof. reflexivity. Qed.
Example take_ex : PyStr.take 10 "2022-08-06T07:05Z" = "2022-08-06".
Proof. reflexivity. Qed.

(** ** Minutes calculators *)

(** *** The scan of the timeline *)

Lemma record_athletes_on etype m athletes subs pid :
  (fold_left (record_athlete etype m) athletes subs).1 !! pid =
  if marks_on etype && bool_decide (pid ∈ a_id <$> athletes)
  then Some m else subs.1 !! pid.
Proof.
  revert subs. induction athletes as [|a l IH]; intros subs; simpl.
  - by rewrite andb_false_r.
  - rewrite IH. unfold record_athlete, marks_on.
    destruct (PyStr.contains "substitute on" etype || PyStr.contains "sub on" etype) eqn:Hon; simpl.
    + destruct (decide (pid = a_id a)) as [->|Hne].
      * rewrite lookup_insert_eq, (bool_decide_eq_true_2 (_ ∈ _ :: _)) by left.
        by destruct (bool_decide _).
      * rewrite lookup_insert_ne by done.
        by rewrite (bool_decide_ext (pid ∈ a_id a :: _) (pid ∈ a_id <$> l))
          by (rewrite elem_of_cons; tauto).
    + by destruct (PyStr.contains "substitute off" etype || _).
Qed.

Lemma record_athletes_off etype m athletes subs pid :
  (fold_left (record_athlete etype m) athletes subs).2 !! pid =
  if marks_off etype && bool_decide (pid ∈ a_id <$> athletes)
  then Some m else subs.2 !! pid.
Proof.
  revert subs. induction athletes as [|a l IH]; intros subs; simpl.
  - by rewrite andb_false_r.
  - rewrite IH. unfold record_athlete, marks_off, marks_on.
    destruct (PyStr.contains "substitute on" etype || PyStr.contains "sub on" etype) eqn:Hon; simpl; [done|].
    destruct (PyStr.contains "substitute off" etype || PyStr.contains "sub off" etype) eqn:Hoff; simpl; [|done].
    destruct (decide (pid = a_id a)) as [->|Hne].
    + rewrite lookup_insert_eq, (bool_decide_eq_true_2 (_ ∈ _ :: _)) by left.
      by destruct (bool_decide _).
    + rewrite lookup_insert_ne by done.
      by rewrite (bool_decide_ext (pid ∈ a_id a :: _) (pid ∈ a_id <$> l))
        by (rewrite elem_of_cons; tauto).
Qed.

Lemma recorded_snoc mark events e pid :
  recorded mark (events ++ [e]) pid =
  match event_minute_for mark pid e with
  | Some m => Some m
  | None => recorded mark events pid
  end.
Proof.
  unfold recorded. rewrite omap_app. simpl.
  destruct (event_minute_for mark pid e); simpl.
  - by rewrite last_snoc.
  - by rewrite app_nil_r.
Qed.

(** The two maps the scan builds hold, for every player, the recorded
    minutes. *)
Lemma scan_events_on events pid :
  (scan_events events).1 !! pid = recorded marks_on events pid.
Proof.
  unfold scan_events.
  induction events as [|e events IH] using rev_ind; [done|].
  rewrite fold_left_app, recorded_snoc. simpl.
  unfold scan_event at 1, event_minute_for.
  destruct (PyStr.int (e_minute e)) as [m|].
  - rewrite record_athletes_on. by destruct (_ && _).
  - rewrite IH. by destruct (_ && _).
Qed.

Lemma scan_events_off events pid :
  (scan_events events).2 !! pid = recorded marks_off events pid.
Proof.
  unfold scan_events.
  induction events as [|e events IH] using rev_ind; [done|].
  rewrite fold_left_app, recorded_snoc. simpl.
  unfold scan_event at 1, event_minute_for.
  destruct (PyStr.int (e_minute e)) as [m|].
  - rewrite record_athletes_off. by destruct (_ && _).
  - rewrite IH. by destruct (_ && _).
Qed.

(** *** One appearance per roster entry *)

Lemma team_loop info subs team_name players acc :
  fold_left
    (fun appearances player =>
       appearances ++ [espn_api.player_appearance info subs team_name player])
    players acc
  = acc ++ (espn_api.player_appearance info subs team_name <$> players).
Proof.
  revert acc. induction players as [|p ps IH]; intros acc; simpl.
  - by rewrite app_nil_r.
  - by rewrite IH, <- app_assoc.
Qed.

Lemma calculate_minutes_entries info rosters :
  calculate_minutes info rosters =
  (fun tp => espn_api.player_appearance info (scan_events (mi_match_events info)) tp.1 tp.2)
    <$> roster_entries rosters.
Proof.
  unfold calculate_minutes.
  set (subs := scan_events _).
  enough (H : ∀ acc,
    fold_left
      (fun appearances '(team_name, players) =>
         fold_left
           (fun appearances player =>
              appearances ++ [espn_api.player_appearance info subs team_name player])
           players appearances)
      rosters acc
    = acc ++ ((fun tp => espn_api.player_appearance info subs tp.1 tp.2)
                <$> roster_entries rosters)) by apply (H []).
  induction rosters as [|[t ps] rs IH]; intros acc; simpl.
  - by rewrite app_nil_r.
  - rewrite IH, team_loop, fmap_app, <- app_assoc. do 2 f_equal.
    by rewrite <- list_fmap_compose.
Qed.

Lemma player_appearance_rule info events team_name p :
  minutes_rule (starter_shirt (p_jersey p))
    (recorded marks_off events (p_id p))
    (recorded marks_on events (p_id p))
    (espn_api.player_appearance info (scan_events events) team_name p).
Proof.
  unfold minutes_rule, espn_api.player_appearance, starter_shirt.
  rewrite scan_events_on, scan_events_off.
  destruct (PyStr.int (p_jersey p)) as [n|]; simpl.
  - destruct ((1 <=? n) && (n <=? 15));
      [destruct (recorded marks_off _ _)|destruct (recorded marks_on _ _)]; done.
  - destruct (recorded marks_on _ _); done.
Qed.

Lemma Forall2_fmap_self {A B : Type} (P : A → B → Prop) (f : A → B) (l : list A) :
  (∀ x, x ∈ l → P x (f x)) → Forall2 P l (f <$> l).
Proof.
  induction l as [|x l IH]; intros H; simpl; constructor.
  - apply H. left.
  - apply IH. intros y Hy. apply H. by right.
Qed.

(** *** The Sky calculator *)

Lemma sky_team_loop info season team_name players acc out :
  team_appearances info season team_name players acc = Some out ↔
  ∃ apps, out = acc ++ apps ∧
    Forall2 (fun p a => sky_sports.player_appearance info season team_name p = Some a)
      players apps.
Proof.
  revert acc out. induction players as [|p ps IH]; intros acc out; simpl.
  - split.
    + intros [= <-]. exists []. by rewrite app_nil_r.
    + intros (apps & -> & H). inversion H. by rewrite app_nil_r.
  - destruct (sky_sports.player_appearance info season team_name p) as [a|] eqn:Ha; simpl.
    + rewrite IH. split.
      * intros (apps & -> & H). exists (a :: apps). rewrite <- app_assoc. split; [done|].
        by constructor.
      * intros (apps & -> & H). inversion H as [|? a' ? apps' Ha' H']; subst.
        exists apps'. rewrite <- app_assoc. split; [|done]. simpl.
        rewrite Ha in Ha'. by injection Ha' as ->.
    + split; [done|]. intros (apps & _ & H). inversion H; congruence.
Qed.

Lemma sky_all_loop info season teams acc out :
  all_appearances info season teams acc = Some out ↔
  ∃ apps, out = acc ++ apps ∧
    Forall2 (fun tp a => sky_sports.player_appearance info season tp.1 tp.2 = Some a)
      (roster_entries teams) apps.
Proof.
  revert acc out. induction teams as [|[t ps] ts IH]; intros acc out; simpl.
  - split.
    + intros [= <-]. exists []. by rewrite app_nil_r.
    + intros (apps & -> & H). inversion H. by rewrite app_nil_r.
  - destruct (team_appearances info season t ps acc) as [acc'|] eqn:Ht; simpl.
    + apply sky_team_loop in Ht as (apps1 & -> & H1).
      rewrite IH. split.
      * intros (apps2 & -> & H2). exists (apps1 ++ apps2).
        rewrite <- app_assoc. split; [done|].
        apply Forall2_app; [|done]. by apply Forall2_fmap_l.
      * intros (apps & -> & H).
        apply Forall2_app_inv_l in H as (k1 & k2 & Hk1 & Hk2 & ->).
        apply Forall2_fmap_l in Hk1. simpl in Hk1.
        assert (k1 = apps1) as ->.
        { apply mapM_Some in H1, Hk1.
          change (mapM (sky_sports.player_appearance info season t) ps = Some k1) in Hk1.
          congruence. }
        exists k2. by rewrite <- app_assoc.
    + split; [done|]. intros (apps & -> & H).
      apply Forall2_app_inv_l in H as (k1 & k2 & Hk1 & Hk2 & ->).
      apply Forall2_fmap_l in Hk1. cbn in Hk1.
      assert (team_appearances info season t ps acc = Some (acc ++ k1)) as Hc.
      { apply sky_team_loop. by exists k1. }
      congruence.
Qed.

Lemma sky_player_appearance_rule info season team_name jersey name off on p :
  parsed_player jersey name off on = Some p →
  ∃ a, sky_sports.player_appearance info season team_name p = Some a ∧
    team a = team_name ∧ player_name a = sp_name p ∧
    minutes_rule (starter_shirt (sp_jersey p))
      (sp_sub_minute_off p) (sp_sub_minute_on p) a.
Proof.
  unfold parsed_player, sky_sports.player_appearance, minutes_rule, starter_shirt.
  destruct (PyStr.int jersey) as [n|] eqn:Hn; [|done]. simpl. intros [= <-]. simpl.
  rewrite Hn. simpl.
  destruct ((1 <=? n) && (n <=? 15)); [destruct off|destruct on]; eexists; (split; [done|]); done.
Qed.

Lemma player_appearance_who info subs team_name p :
  team (espn_api.player_appearance info subs team_name p) = team_name ∧
  player_name (espn_api.player_appearance info subs team_name p) = p_name p.
Proof.
  unfold espn_api.player_appearance.
  destruct (_ && _); [destruct (subs.2 !! _)|destruct (subs.1 !! _)]; done.
Qed.

Lemma sky_entries_total info season (entries : list (string * sky_sports.player)) :
  Forall parsed_entry entries →
  ∃ apps,
    Forall2 (fun tp a =>
               sky_sports.player_appearance info season tp.1 tp.2 = Some a)
      entries apps
    ∧ Forall2 sky_entry_rule entries apps.
Proof.
  induction 1 as [|tp l (j & n & off & on & Hp) _ (apps & IH1 & IH2)].
  - exists []. split; constructor.
  - destruct (sky_player_appearance_rule info season tp.1 _ _ _ _ _ Hp)
      as (a & Ha & Ht & Hn & Hr).
    exists (a :: apps). split; constructor; done.
Qed.

(** Claim C1. Both minutes calculators yield one appearance per roster
    entry, in roster order, and each follows the rule: a starter (shirt
    number parsing to an integer in [1, 15]) with a recorded
    off-substitution at minute m has minutes_played = m and
    sub_minute_off = m, one without has minutes_played = 80 and
    sub_minute_off empty; a non-starter with a recorded on-substitution at
    minute m has minutes_played = 80 - m and sub_minute_on = m, one without
    has minutes_played = 0 and sub_minute_on empty. The Sky calculator
    returns (raises nothing) on the player dicts its parser builds. *)
Theorem minutes_rule_holds (info : espn_api.match_info)
    (rosters : list (string * list espn_api.player))
    (sky_info : sky_sports.match_info)
    (teams_data : list (string * list sky_sports.player)) (season : string) :
  Forall parsed_entry (roster_entries teams_data) →
  Forall2 (espn_entry_rule info) (roster_entries rosters)
    (calculate_minutes info rosters)
  ∧ ∃ apps, calculate_appearances sky_info teams_data season = Some apps
      ∧ Forall2 sky_entry_rule (roster_entries teams_data) apps.
Proof.
  intros Hparsed. split.
  - rewrite calculate_minutes_entries. apply Forall2_fmap_self.
    intros [t p] _. unfold espn_entry_rule.
    destruct (player_appearance_who info (scan_events (mi_match_events info)) t p)
      as [Ht Hn].
    split; [done|]. split; [done|]. apply player_appearance_rule.
  - destruct (sky_entries_total sky_info season _ Hparsed) as (apps & H1 & H2).
    exists apps. split; [|done].
    apply sky_all_loop. by exists apps.
Qed.

Lemma espn_column_rule info subs team_name p :
  column_rule (espn_api.player_appearance info subs team_name p).
Proof.
  unfold column_rule, espn_api.player_appearance.
  destruct (_ && _); [destruct (subs.2 !! _)|destruct (subs.1 !! _)];
    simpl; intuition congruence.
Qed.

Lemma sky_column_rule info season team_name p a :
  sky_sports.player_appearance info season team_name p = Some a → column_rule a.
Proof.
  unfold column_rule, sky_sports.player_appearance.
  destruct (PyStr.int _); [|done]. simpl.
  destruct (default _ _);
    [destruct (sp_sub_minute_off p)|destruct (sp_sub_minute_on p)];
    intros [= <-]; simpl; intuition congruence.
Qed.

Lemma sky_output info teams season apps :
  calculate_appearances info teams season = Some apps →
  Forall2 (fun tp a =>
             sky_sports.player_appearance info season tp.1 tp.2 = Some a)
    (roster_entries teams) apps.
Proof.
  unfold calculate_appearances. intros H.
  apply sky_all_loop in H as (apps' & -> & H). done.
Qed.

(** Claim C4, amended. In every appearance either calculator produces, a
    non-starter has sub_minute_off empty (only sub_minute_on may be set)
    and a starter has sub_minute_on = 0, an integer and not empty; so both
    columns are populated exactly when a starter has sub_minute_off set. *)
Theorem substitution_columns (info : espn_api.match_info)
    (rosters : list (string * list espn_api.player))
    (sky_info : sky_sports.match_info)
    (teams_data : list (string * list sky_sports.player)) (season : string)
    (apps : list appearance) :
  calculate_appearances sky_info teams_data season = Some apps →
  Forall column_rule (calculate_minutes info rosters) ∧ Forall column_rule apps.
Proof.
  intros Hsky. split.
  - rewrite calculate_minutes_entries. apply Forall_fmap, Forall_forall.
    intros tp _. apply espn_column_rule.
  - apply sky_output in Hsky.
    eapply Forall2_Forall_r; [exact Hsky|].
    apply Forall_forall. intros tp _ a Ha. by eapply sky_column_rule.
Qed.

Lemma minutes_rule_in_range starter off on a :
  minutes_rule starter off on a →
  0 ≤ minutes_played a ≤ 80
  ↔ within_match (minute_used (is_starter a) off on).
Proof.
  unfold within_match, minute_used. intros [-> H]. destruct starter.
  - destruct off as [m|]; destruct H as [-> _].
    + split; [by intros ? ? [= <-]|]. intros Hm. by apply Hm.
    + split; [done|lia].
  - destruct on as [m|]; destruct H as [-> _].
    + split; [intros ? ? [= <-]; lia|]. intros Hm.
      specialize (Hm m eq_refl). lia.
    + split; [done|lia].
Qed.

Lemma sky_minutes_in_range info season team_name p a :
  sky_sports.player_appearance info season team_name p = Some a →
  0 ≤ minutes_played a ≤ 80
  ↔ within_match (minute_used (is_starter a)
                    (sp_sub_minute_off p) (sp_sub_minute_on p)).
Proof.
  unfold sky_sports.player_appearance, within_match, minute_used.
  destruct (PyStr.int _); [|done]. simpl.
  destruct (default _ _);
    [destruct (sp_sub_minute_off p) as [m|]|destruct (sp_sub_minute_on p) as [m|]];
    intros [= <-]; simpl.
  - split; [by intros ? ? [= <-]|]. intros Hm. by apply Hm.
  - split; [done|lia].
  - split; [intros ? ? [= <-]; lia|]. intros Hm. specialize (Hm m eq_refl). lia.
  - split; [done|lia].
Qed.

(** Claim C5, amended. For every appearance either calculator produces,
    0 <= minutes_played <= 80 holds exactly when the substitution minute
    the appearance is computed from (the recorded off minute of a starter,
    the recorded on minute of a non-starter), if there is one, lies in
    [0, 80]. Minutes are not clamped. *)
Theorem minutes_played_bounds (info : espn_api.match_info)
    (rosters : list (string * list espn_api.player))
    (sky_info : sky_sports.match_info)
    (teams_data : list (string * list sky_sports.player)) (season : string)
    (apps : list appearance) :
  calculate_appearances sky_info teams_data season = Some apps →
  Forall2
    (fun tp a =>
       0 ≤ minutes_played a ≤ 80
       ↔ within_match
           (minute_used (is_starter a)
              (recorded marks_off (mi_match_events info) (p_id tp.2))
              (recorded marks_on (mi_match_events info) (p_id tp.2))))
    (roster_entries rosters) (calculate_minutes info rosters)
  ∧ Forall2
      (fun tp a =>
         0 ≤ minutes_played a ≤ 80
         ↔ within_match
             (minute_used (is_starter a)
                (sp_sub_minute_off tp.2) (sp_sub_minute_on tp.2)))
      (roster_entries teams_data) apps.
Proof.
  intros Hsky. split.
  - rewrite calculate_minutes_entries. apply Forall2_fmap_self.
    intros [t p] _. simpl.
    eapply minutes_rule_in_range, player_appearance_rule.
  - apply sky_output in Hsky.
    eapply Forall2_impl; [exact Hsky|].
    intros tp a Ha. exact (sky_minutes_in_range _ _ _ _ _ Ha).
Qed.

Lemma sample_teams_parsed : Forall parsed_entry (roster_entries sample_teams).
Proof.
  repeat constructor.
  - by exists "9", "9", None, None.
  - by exists "10", "10", (Some 55), None.
  - by exists "21", "21", None, (Some 63).
  - by exists "22", "22", None, None.
Defined.

(** The rule at the sample match: shirts 9, 10 (off at 55), 21 (on at 63)
    and 22. *)
Lemma minutes_rule_holds_witness :
  Forall parsed_entry (roster_entries sample_teams) ∧
  (Forall2 (espn_entry_rule (sample_info regular_events))
     (roster_entries sample_rosters)
     (calculate_minutes (sample_info regular_events) sample_rosters)
   ∧ ∃ apps, calculate_appearances sample_sky_info sample_teams "2019-20" = Some apps
       ∧ Forall2 sky_entry_rule (roster_entries sample_teams) apps).
Proof.
  split; [exact sample_teams_parsed|].
  exact (minutes_rule_holds (sample_info regular_events) sample_rosters
           sample_sky_info sample_teams "2019-20" sample_teams_parsed).
Defined.

(** The scenarios of the specification: shirt 9 without events, shirt 21
    on at minute 63, shirt 22 without events. *)
Example calculate_minutes_regular :
  columns <$> calculate_minutes (sample_info regular_events) sample_rosters =
  [(true, CEmpty, CInt 0, 80); (true, CInt 55, CInt 0, 55);
   (false, CEmpty, CInt 63, 17); (false, CEmpty, CEmpty, 0)].
Proof. vm_compute. reflexivity. Qed.

Example calculate_appearances_regular :
  fmap (M := option) (fmap (M := list) columns)
    (calculate_appearances sample_sky_info sample_teams "2019-20") =
  Some [(true, CEmpty, CInt 0, 80); (true, CInt 55, CInt 0, 55);
        (false, CEmpty, CInt 63, 17); (false, CEmpty, CEmpty, 0)].
Proof. vm_compute. reflexivity. Qed.

(** Claim C4 as stated fails: the starter substituted off at minute 55 has
    sub_minute_off = 55 and sub_minute_on = 0, both populated, in the
    output of either calculator. *)
Lemma both_columns_populated :
  Exists (fun a => populated (sub_minute_off a) = true
                   ∧ populated (sub_minute_on a) = true)
    (calculate_minutes (sample_info regular_events) sample_rosters)
  ∧ ∃ apps, calculate_appearances sample_sky_info sample_teams "2019-20" = Some apps
      ∧ Exists (fun a => populated (sub_minute_off a) = true
                         ∧ populated (sub_minute_on a) = true) apps.
Proof.
  split.
  - apply Exists_cons_tl, Exists_cons_hd. by vm_compute.
  - eexists. split; [vm_compute; reflexivity|].
    apply Exists_cons_tl, Exists_cons_hd. by vm_compute.
Qed.

(** Claim C5 as stated fails: with an off-substitution at minute 85 and an
    on-substitution at minute 83 the calculator yields minutes_played = 85
    and minutes_played = -3. *)
Lemma minutes_played_out_of_range :
  minutes_played <$> calculate_minutes (sample_info late_events) sample_rosters
  = [80; 85; -3; 0]
  ∧ ¬ Forall (fun a => 0 ≤ minutes_played a ≤ 80)
        (calculate_minutes (sample_info late_events) sample_rosters).
Proof.
  split; [vm_compute; reflexivity|].
  intros H. apply Forall_cons_1 in H as [_ H]. apply Forall_cons_1 in H as [H _].
  vm_compute in H. destruct H as [_ H]. by apply H.
Qed.

(** The columns at the sample match. *)
Lemma substitution_columns_witness :
  calculate_appearances sample_sky_info sample_teams "2019-20"
  = Some (default [] (calculate_appearances sample_sky_info sample_teams "2019-20"))
  ∧ (Forall column_rule (calculate_minutes (sample_info regular_events) sample_rosters)
     ∧ Forall column_rule
         (default [] (calculate_appearances sample_sky_info sample_teams "2019-20"))).
Proof.
  assert (calculate_appearances sample_sky_info sample_teams "2019-20"
  = Some (default [] (calculate_appearances sample_sky_info sample_teams "2019-20")))
    as H by (vm_compute; reflexivity).
  split; [exact H|].
  exact (substitution_columns (sample_info regular_events) sample_rosters
           sample_sky_info sample_teams "2019-20" _ H).
Defined.

(** A try at minute 82 does not bear on any appearance. *)
Example calculate_minutes_late_try :
  minutes_played <$> calculate_minutes (sample_info late_try_events) sample_rosters
  = [80; 55; 17; 0].
Proof. vm_compute. reflexivity. Qed.

(** The bounds at the sample match with the late try. *)
Lemma minutes_played_bounds_witness :
  calculate_appearances sample_sky_info sample_teams "2019-20"
  = Some (default [] (calculate_appearances sample_sky_info sample_teams "2019-20"))
  ∧ (Forall2
       (fun tp a =>
          0 ≤ minutes_played a ≤ 80
          ↔ within_match
              (minute_used (is_starter a)
                 (recorded marks_off late_try_events (p_id tp.2))
                 (recorded marks_on late_try_events (p_id tp.2))))
       (roster_entries sample_rosters)
       (calculate_minutes (sample_info late_try_events) sample_rosters)
     ∧ Forall2
         (fun tp a =>
            0 ≤ minutes_played a ≤ 80
            ↔ within_match
                (minute_used (is_starter a)
                   (sp_sub_minute_off tp.2) (sp_sub_minute_on tp.2)))
         (roster_entries sample_teams)
         (default []
            (calculate_appearances sample_sky_info sample_teams "2019-20"))).
Proof.
  assert (calculate_appearances sample_sky_info sample_teams "2019-20"
  = Some (default [] (calculate_appearances sample_sky_info sample_teams "2019-20")))
    as H by (vm_compute; reflexivity).
  split; [exact H|].
  exact (minutes_played_bounds (sample_info late_try_events) sample_rosters
           sample_sky_info sample_teams "2019-20" _ H).
Defined.

(** ** Insertion-ordered dicts *)

Section odict.
Context {V : Type}.
Implicit Types (d : list (string * V)) (k : string) (v : V).

Lemma od_get_None k d : od_get k d = None ↔ k ∉ d.*1.
Proof.
  induction d as [|[k' v'] d IH]; simpl.
  - split; [intros _; apply not_elem_of_nil|done].
  - rewrite not_elem_of_cons. case_decide; [|tauto].
    subst. split; [done|]. by intros [? _].
Qed.

Lemma od_get_Some k v d : od_get k d = Some v → (k, v) ∈ d.
Proof.
  induction d as [|[k' v'] d IH]; simpl; [done|].
  case_decide.
  - intros [= ->]. subst. left.
  - intros H'. right. by apply IH.
Qed.

Lemma od_get_set k' k v d :
  od_get k' (od_set k v d) = if decide (k' = k) then Some v else od_get k' d.
Proof.
  induction d as [|[k0 v0] d IH]; simpl.
  - by repeat case_decide.
  - repeat (case_decide; simpl; subst); try done; try congruence.
    all: rewrite IH; by repeat case_decide.
Qed.

Lemma od_set_fresh k v d : k ∉ d.*1 → od_set k v d = d ++ [(k, v)].
Proof.
  induction d as [|[k0 v0] d IH]; simpl; [done|].
  rewrite not_elem_of_cons. intros [Hne Hd].
  case_decide; [done|]. by rewrite IH.
Qed.

Lemma od_set_elem k v d x : x ∈ od_set k v d → x = (k, v) ∨ x ∈ d.
Proof.
  induction d as [|[k0 v0] d IH]; simpl.
  - rewrite list_elem_of_singleton. tauto.
  - case_decide; rewrite !elem_of_cons; [tauto|].
    intros [->|H']; [tauto|]. apply IH in H'. tauto.
Qed.

Lemma od_set_keys k v d :
  (od_set k v d).*1 = if decide (k ∈ d.*1) then d.*1 else d.*1 ++ [k].
Proof.
  induction d as [|[k0 v0] d IH]; csimpl.
  - done.
  - destruct (decide (k = k0)) as [->|Hne]; csimpl.
    + rewrite decide_True; [done|left].
    + rewrite IH. destruct (decide (k ∈ d.*1)) as [Hin|Hin].
      * rewrite decide_True; [done|by right].
      * rewrite decide_False; [done|]. rewrite elem_of_cons. tauto.
Qed.

Lemma od_set_NoDup k v d : NoDup d.*1 → NoDup (od_set k v d).*1.
Proof.
  intros Hd. rewrite od_set_keys. case_decide; [done|].
  apply NoDup_app. split; [done|]. split.
  - intros x Hx. rewrite list_elem_of_singleton. by intros ->.
  - apply NoDup_singleton.
Qed.

Lemma od_get_elem k v d : NoDup d.*1 → (k, v) ∈ d → od_get k d = Some v.
Proof.
  induction d as [|[k0 v0] d IH]; simpl.
  - intros _ H. by apply elem_of_nil in H.
  - rewrite NoDup_cons, elem_of_cons. intros [Hk0 Hd] [[= -> ->]|Hin].
    + by rewrite decide_True.
    + rewrite decide_False; [by apply IH|].
      intros ->. apply Hk0. apply list_elem_of_fmap. by exists (k0, v).
Qed.
End odict.

(** ** First pass of the match deduplicator *)

Lemma ident_Some (m : gmap string string) k :
  m !! "espn_match_id" = Some k → ident m = k.
Proof. unfold ident, get. by intros ->. Qed.

Lemma pass1_step_cases seen m seen' :
  pass1_step seen m = Some seen' →
  ∃ eid, m !! "espn_match_id" = Some eid ∧
         (seen' = od_set eid m seen ∨ seen' = seen).
Proof.
  unfold pass1_step. destruct (m !! "espn_match_id") as [eid|]; [|done]. simpl.
  intros H. exists eid. split; [done|].
  destruct (od_get eid seen); [destruct (_ <? _)|]; injection H as <-; tauto.
Qed.

Lemma pass1_step_keyed seen m seen' :
  keyed seen → pass1_step seen m = Some seen' → keyed seen'.
Proof.
  intros [Hnd Hk] H. apply pass1_step_cases in H as (eid & Hm & [->| ->]); [|done].
  split; [by apply od_set_NoDup|].
  intros k v Hin. apply od_set_elem in Hin as [[= -> ->]|Hin]; [done|by apply Hk].
Qed.

Lemma pass1_keyed l seen seen' :
  keyed seen → pass1 l seen = Some seen' → keyed seen'.
Proof.
  revert seen. induction l as [|m l IH]; intros seen Hk; simpl.
  - by intros [= <-].
  - destruct (pass1_step seen m) as [s|] eqn:Hs; [|done]. simpl.
    apply IH. by eapply pass1_step_keyed.
Qed.

Lemma keyed_nil : keyed [].
Proof. split; [constructor|]. intros k v H. by apply elem_of_nil in H. Qed.

Lemma pass1_step_values seen m seen' v :
  pass1_step seen m = Some seen' →
  v ∈ od_values seen' → v = m ∨ v ∈ od_values seen.
Proof.
  intros H. apply pass1_step_cases in H as (eid & Hm & [->| ->]); [|tauto].
  unfold od_values. rewrite !list_elem_of_fmap.
  intros ([k v'] & -> & Hin). apply od_set_elem in Hin as [[= -> ->]|Hin]; [by left|].
  right. by exists (k, v').
Qed.

Lemma pass1_values l seen seen' v :
  pass1 l seen = Some seen' →
  v ∈ od_values seen' → v ∈ l ∨ v ∈ od_values seen.
Proof.
  revert seen. induction l as [|m l IH]; intros seen; simpl.
  - intros [= <-]. tauto.
  - destruct (pass1_step seen m) as [s|] eqn:Hs; [|done]. simpl.
    intros Hp Hv. destruct (IH _ Hp Hv) as [Hl|Hl].
    + left. by right.
    + destruct (pass1_step_values _ _ _ _ Hs Hl) as [->|Hl']; [left; left|by right].
Qed.

(** Rows with pairwise distinct identifiers pass the first loop unchanged. *)
Lemma pass1_distinct l seen :
  Forall (fun m => is_Some (m !! "espn_match_id")) l →
  NoDup (ident <$> l) →
  (∀ m, m ∈ l → ident m ∉ seen.*1) →
  pass1 l seen = Some (seen ++ ((fun m => (ident m, m)) <$> l)).
Proof.
  revert seen. induction l as [|m l IH]; intros seen Hids Hnd Hfresh; csimpl.
  - by rewrite app_nil_r.
  - apply Forall_cons_1 in Hids as [[k Hk] Hids].
    apply NoDup_cons in Hnd as [Hm Hnd].
    pose proof (ident_Some _ _ Hk) as Hid.
    assert (k ∉ seen.*1) as Hfr by (rewrite <- Hid; apply Hfresh; left).
    unfold pass1_step. rewrite Hk. csimpl.
    rewrite (proj2 (od_get_None k seen) Hfr). csimpl.
    rewrite od_set_fresh by done.
    rewrite IH; [by rewrite Hid, <- app_assoc|done|done|].
    intros m' Hm'. rewrite fmap_app, not_elem_of_app. split.
    + apply Hfresh. by right.
    + csimpl. rewrite list_elem_of_singleton. intros Heq. apply Hm.
      rewrite Hid, <- Heq. by apply list_elem_of_fmap_2.
Qed.

Lemma pass1_step_other seen m seen' k :
  pass1_step seen m = Some seen' → m !! "espn_match_id" ≠ Some k →
  od_get k seen' = od_get k seen.
Proof.
  intros H Hne. apply pass1_step_cases in H as (eid & Hm & [->| ->]); [|done].
  rewrite od_get_set. case_decide; [|done]. congruence.
Qed.

(** A record stored under its identifier stays there as long as every
    later record of that identifier has a greater priority number. *)
Lemma pass1_keeps r k l :
  (∀ x, x ∈ l → x !! "espn_match_id" = Some k → x ≠ r →
        match_priority r < match_priority x) →
  ∀ seen seen',
    pass1 l seen = Some seen' →
    od_get k seen = Some r → od_get k seen' = Some r.
Proof.
  induction l as [|m l IH]; intros Hbest seen seen'; simpl.
  - by intros [= <-].
  - destruct (pass1_step seen m) as [s|] eqn:Hs; [|done]. simpl. intros Hp Hget.
    apply (IH (fun x Hx => Hbest x (list_elem_of_further _ _ _ Hx)) s seen' Hp).
    destruct (decide (m !! "espn_match_id" = Some k)) as [Hk|Hk].
    + unfold pass1_step in Hs. rewrite Hk in Hs. simpl in Hs. rewrite Hget in Hs.
      destruct (match_priority m <? match_priority r) eqn:Hlt;
        injection Hs as <-; [|done].
      rewrite od_get_set, decide_True by done.
      destruct (decide (m = r)) as [->|Hmr]; [done|].
      apply Z.ltb_lt in Hlt.
      pose proof (Hbest m (list_elem_of_here _ _) Hk Hmr). lia.
    + by rewrite (pass1_step_other _ _ _ _ Hs Hk).
Qed.

(** The best record of an identifier survives the first loop. *)
Lemma pass1_winner r k l :
  (∀ x, x ∈ l → x !! "espn_match_id" = Some k → x ≠ r →
        match_priority r < match_priority x) →
  r !! "espn_match_id" = Some k →
  ∀ seen seen',
    pass1 l seen = Some seen' →
    r ∈ l →
    (∀ v, od_get k seen = Some v → v ≠ r →
          match_priority r < match_priority v) →
    od_get k seen' = Some r.
Proof.
  intros Hbest Hr.
  induction l as [|m l IH]; intros seen seen'; simpl.
  - intros _ H. by apply elem_of_nil in H.
  - destruct (pass1_step seen m) as [s|] eqn:Hs; [|done]. simpl.
    intros Hp Hin Hhold.
    pose proof (fun x Hx => Hbest x (list_elem_of_further _ _ _ Hx)) as Hbest'.
    destruct (decide (m = r)) as [->|Hmr].
    + (* the row at hand is [r]: it is stored, or it already was *)
      apply (pass1_keeps r k l Hbest' s seen' Hp).
      unfold pass1_step in Hs. rewrite Hr in Hs. simpl in Hs.
      destruct (od_get k seen) as [ex|] eqn:Hex.
      * destruct (match_priority r <? match_priority ex) eqn:Hlt;
          injection Hs as <-.
        -- by rewrite od_get_set, decide_True.
        -- destruct (decide (ex = r)) as [->|Hexr]; [done|].
           apply Z.ltb_ge in Hlt. pose proof (Hhold ex eq_refl Hexr). lia.
      * injection Hs as <-. by rewrite od_get_set, decide_True.
    + apply elem_of_cons in Hin as [->|Hin]; [done|].
      apply (IH Hbest' s seen' Hp Hin).
      intros v Hv Hvr.
      destruct (decide (m !! "espn_match_id" = Some k)) as [Hk|Hk].
      * apply pass1_step_cases in Hs as (eid & Hm & [->| ->]).
        -- rewrite od_get_set in Hv. rewrite Hk in Hm. injection Hm as <-.
           rewrite decide_True in Hv by done. injection Hv as <-.
           by apply (Hbest m (list_elem_of_here _ _)).
        -- by apply Hhold.
      * rewrite (pass1_step_other _ _ _ _ Hs Hk) in Hv. by apply Hhold.
Qed.

(** ** Second pass of the match deduplicator *)

Lemma indexed_empty : indexed (∅, []).
Proof.
  split; [|constructor]. intros s r. simpl. rewrite lookup_empty.
  split; [done|]. intros [H _]. by apply elem_of_nil in H.
Qed.

Lemma NoDup_fmap_filter {A B : Type} (f : A → B) (P : A → Prop)
    `{∀ x, Decision (P x)} (l : list A) :
  NoDup (f <$> l) → NoDup (f <$> filter P l).
Proof.
  induction l as [|x l IH]; csimpl; [done|].
  rewrite NoDup_cons. intros [Hx Hl].
  rewrite filter_cons. case_decide; csimpl; [|by apply IH].
  apply NoDup_cons. split; [|by apply IH].
  intros Hin. apply Hx.
  apply list_elem_of_fmap in Hin as (y & -> & Hy).
  apply list_elem_of_filter in Hy as [_ Hy]. by apply list_elem_of_fmap_2.
Qed.

Lemma pass2_step_indexed st m : indexed st → indexed (pass2_step st m).
Proof.
  intros [Hidx Hnd]. unfold pass2_step.
  destruct (st.1 !! signature m) as [ex|] eqn:Hex.
  - destruct (match_priority m <? match_priority ex); [|done].
    apply Hidx in Hex as Hex'. destruct Hex' as [Hexin Hexsig].
    assert (Hother : ∀ r, r ∈ st.2 → signature r = signature m → r = ex).
    { intros r Hr Hs. assert (st.1 !! signature m = Some r) as Hr'
        by (by apply Hidx). congruence. }
    split; simpl.
    + intros s r. rewrite elem_of_app, list_elem_of_filter, list_elem_of_singleton.
      destruct (decide (s = signature m)) as [->|Hs].
      * rewrite lookup_insert_eq. split.
        -- intros [= <-]. tauto.
        -- intros [[[Hne Hr]| ->] Hsig]; [|done].
           by destruct Hne; apply Hother.
      * rewrite lookup_insert_ne by done. rewrite Hidx. split.
        -- intros [Hr Hsig]. split; [|done]. left. split; [|done].
           intros ->. congruence.
        -- intros [[[_ Hr]| ->] Hsig]; [done|]. by destruct Hs.
    + rewrite fmap_app. apply NoDup_app. split; [by apply NoDup_fmap_filter|].
      split; [|apply NoDup_singleton].
      intros s Hs. csimpl. rewrite list_elem_of_singleton. intros ->.
      apply list_elem_of_fmap in Hs as (r & Hsig & Hr).
      apply list_elem_of_filter in Hr as [Hne Hr].
      apply Hne. by apply Hother.
  - split; simpl.
    + intros s r. rewrite elem_of_app, list_elem_of_singleton.
      destruct (decide (s = signature m)) as [->|Hs].
      * rewrite lookup_insert_eq. split.
        -- intros [= <-]. tauto.
        -- intros [[Hr| ->] Hsig]; [|done].
           assert (st.1 !! signature m = Some r) by (by apply Hidx). congruence.
      * rewrite lookup_insert_ne by done. rewrite Hidx. split.
        -- intros [Hr Hsig]. tauto.
        -- intros [[Hr| ->] Hsig]; [done|]. by destruct Hs.
    + rewrite fmap_app. apply NoDup_app. split; [done|].
      split; [|apply NoDup_singleton].
      intros s Hs. csimpl. rewrite list_elem_of_singleton. intros ->.
      apply list_elem_of_fmap in Hs as (r & Hsig & Hr).
      assert (st.1 !! signature m = Some r) by (by apply Hidx). congruence.
Qed.

Lemma pass2_indexed l st : indexed st → indexed (fold_left pass2_step l st).
Proof.
  revert st. induction l as [|m l IH]; intros st Hst; simpl; [done|].
  by apply IH, pass2_step_indexed.
Qed.

Lemma pass2_step_elem st m r :
  r ∈ (pass2_step st m).2 → r = m ∨ r ∈ st.2.
Proof.
  unfold pass2_step.
  destruct (st.1 !! signature m) as [ex|];
    [destruct (match_priority m <? match_priority ex)|]; simpl.
  - rewrite elem_of_app, list_elem_of_filter, list_elem_of_singleton. tauto.
  - tauto.
  - rewrite elem_of_app, list_elem_of_singleton. tauto.
Qed.

Lemma pass2_elem l st r :
  r ∈ (fold_left pass2_step l st).2 → r ∈ l ∨ r ∈ st.2.
Proof.
  revert st. induction l as [|m l IH]; intros st; simpl; [tauto|].
  intros H. apply IH in H as [H|H]; [left; by right|].
  apply pass2_step_elem in H as [->|H]; [left; left|by right].
Qed.

(** Rows with pairwise distinct signatures pass the second loop unchanged. *)
Lemma pass2_distinct l st :
  NoDup (signature <$> l) →
  (∀ m, m ∈ l → st.1 !! signature m = None) →
  (fold_left pass2_step l st).2 = st.2 ++ l.
Proof.
  revert st. induction l as [|m l IH]; intros st Hnd Hfresh; csimpl.
  - by rewrite app_nil_r.
  - apply NoDup_cons in Hnd as [Hm Hnd].
    unfold pass2_step at 2. rewrite (Hfresh m) by left.
    rewrite IH; simpl; [by rewrite <- app_assoc|done|].
    intros m' Hm'. rewrite lookup_insert_ne; [apply Hfresh; by right|].
    intros Heq. apply Hm. rewrite Heq. by apply list_elem_of_fmap_2.
Qed.

Lemma pass2_step_other st m s :
  signature m ≠ s → (pass2_step st m).1 !! s = st.1 !! s.
Proof.
  intros Hne. unfold pass2_step.
  destruct (st.1 !! signature m) as [ex|];
    [destruct (match_priority m <? match_priority ex)|]; simpl;
    by rewrite ?lookup_insert_ne.
Qed.

Lemma pass2_keeps r l :
  (∀ x, x ∈ l → signature x = signature r → x ≠ r →
        match_priority r < match_priority x) →
  ∀ st,
    st.1 !! signature r = Some r →
    (fold_left pass2_step l st).1 !! signature r = Some r.
Proof.
  induction l as [|m l IH]; intros Hbest st Hget; simpl; [done|].
  apply (IH (fun x Hx => Hbest x (list_elem_of_further _ _ _ Hx))).
  destruct (decide (signature m = signature r)) as [Hs|Hs].
  - unfold pass2_step. rewrite Hs, Hget.
    destruct (match_priority m <? match_priority r) eqn:Hlt; [|done].
    simpl. rewrite lookup_insert_eq.
    destruct (decide (m = r)) as [->|Hmr]; [done|].
    apply Z.ltb_lt in Hlt.
    pose proof (Hbest m (list_elem_of_here _ _) Hs Hmr). lia.
  - by rewrite pass2_step_other.
Qed.

(** The best record of a signature is the one the second loop indexes. *)
Lemma pass2_winner r l :
  (∀ x, x ∈ l → signature x = signature r → x ≠ r →
        match_priority r < match_priority x) →
  ∀ st,
    r ∈ l →
    (∀ v, st.1 !! signature r = Some v → v ≠ r →
          match_priority r < match_priority v) →
    (fold_left pass2_step l st).1 !! signature r = Some r.
Proof.
  intros Hbest.
  induction l as [|m l IH]; intros st Hin Hhold; simpl.
  - by apply elem_of_nil in Hin.
  - pose proof (fun x Hx => Hbest x (list_elem_of_further _ _ _ Hx)) as Hbest'.
    destruct (decide (m = r)) as [->|Hmr].
    + apply (pass2_keeps r l Hbest').
      unfold pass2_step.
      destruct (st.1 !! signature r) as [ex|] eqn:Hex.
      * destruct (match_priority r <? match_priority ex) eqn:Hlt; simpl.
        -- by rewrite lookup_insert_eq.
        -- destruct (decide (ex = r)) as [->|Hexr]; [done|].
           apply Z.ltb_ge in Hlt. pose proof (Hhold ex eq_refl Hexr). lia.
      * simpl. by rewrite lookup_insert_eq.
    + apply elem_of_cons in Hin as [->|Hin]; [done|].
      apply (IH Hbest' _ Hin).
      intros v Hv Hvr.
      destruct (decide (signature m = signature r)) as [Hs|Hs].
      * unfold pass2_step in Hv. rewrite Hs in Hv.
        destruct (st.1 !! signature r) as [ex|] eqn:Hex.
        -- destruct (match_priority m <? match_priority ex) eqn:Hlt; simpl in Hv.
           ++ rewrite lookup_insert_eq in Hv. injection Hv as <-.
              by apply (Hbest m (list_elem_of_here _ _)).
           ++ rewrite Hex in Hv. injection Hv as <-. by apply Hhold.
        -- simpl in Hv. rewrite lookup_insert_eq in Hv. injection Hv as <-.
           by apply (Hbest m (list_elem_of_here _ _)).
      * rewrite pass2_step_other in Hv by done. by apply Hhold.
Qed.

(** ** The match deduplicator *)

Lemma sorted_pair_swap a b : sorted_pair a b = sorted_pair b a.
Proof.
  unfold sorted_pair, PyStr.lt, String.ltb.
  rewrite (String.compare_antisym a b).
  destruct (String.compare b a) eqn:Hc; simpl; try done.
  apply String.compare_eq_iff in Hc. by subst.
Qed.

Lemma sorted_pair_eq a b c d :
  sorted_pair a b = sorted_pair c d ↔ (a = c ∧ b = d) ∨ (a = d ∧ b = c).
Proof.
  split.
  - unfold sorted_pair.
    destruct (PyStr.lt b a), (PyStr.lt d c); intros [= -> ->]; tauto.
  - intros [[-> ->]|[-> ->]]; [done|apply sorted_pair_swap].
Qed.

Lemma pass1_total l seen :
  Forall (fun m => is_Some (m !! "espn_match_id")) l → is_Some (pass1 l seen).
Proof.
  revert seen. induction l as [|m l IH]; intros seen Hl; simpl; [done|].
  apply Forall_cons_1 in Hl as [[k Hk] Hl].
  unfold pass1_step. rewrite Hk. simpl.
  destruct (od_get k seen); [destruct (_ <? _)|]; simpl; by apply IH.
Qed.

Lemma pass1_has_ids l seen seen' :
  pass1 l seen = Some seen' → Forall (fun m => is_Some (m !! "espn_match_id")) l.
Proof.
  revert seen. induction l as [|m l IH]; intros seen; simpl; [done|].
  destruct (pass1_step seen m) as [s|] eqn:Hs; [|done]. simpl. intros Hp.
  constructor; [|by eapply IH].
  apply pass1_step_cases in Hs as (eid & -> & _). done.
Qed.

(** What a successful run leaves: the survivors of the first loop, keyed by
    identifier, and the state of the second loop, indexed by signature. *)
Lemma deduplicate_matches_inv pool out :
  deduplicate_matches pool = Some out →
  ∃ seen st,
    pass1 pool [] = Some seen ∧ keyed seen ∧
    st = fold_left pass2_step (od_values seen) (∅, []) ∧
    indexed st ∧ out = st.2.
Proof.
  unfold deduplicate_matches.
  destruct (pass1 pool []) as [seen|] eqn:Hp; [|done]. simpl. intros [= <-].
  exists seen, (fold_left pass2_step (od_values seen) (∅, [])).
  split; [done|]. split; [by eapply pass1_keyed, Hp; apply keyed_nil|].
  split; [done|]. split; [|done]. apply pass2_indexed, indexed_empty.
Qed.

Lemma deduplicate_matches_subset pool out r :
  deduplicate_matches pool = Some out → r ∈ out → r ∈ pool.
Proof.
  intros H Hr. apply deduplicate_matches_inv in H as (seen & st & Hp & _ & -> & _ & ->).
  apply pass2_elem in Hr as [Hr|Hr]; [|by apply elem_of_nil in Hr].
  eapply pass1_values in Hr as [Hr|Hr]; [done| |done].
  by apply elem_of_nil in Hr.
Qed.

Lemma deduplicate_matches_distinct pool out :
  deduplicate_matches pool = Some out →
  Forall (fun m => is_Some (m !! "espn_match_id")) out ∧
  NoDup (ident <$> out) ∧ NoDup (signature <$> out).
Proof.
  intros H. apply deduplicate_matches_inv in H as (seen & st & Hp & [Hnd Hk] & Hst & [_ Hsig] & ->).
  assert (Hval : ∀ r, r ∈ st.2 → (ident r, r) ∈ seen).
  { intros r Hr. rewrite Hst in Hr.
    apply pass2_elem in Hr as [Hr|Hr]; [|by apply elem_of_nil in Hr].
    apply list_elem_of_fmap in Hr as ([k v] & -> & Hin). simpl.
    by rewrite (ident_Some _ _ (Hk _ _ Hin)). }
  split; [|split; [|done]].
  - apply Forall_forall. intros r Hr. exists (ident r). apply Hk, Hval, Hr.
  - apply NoDup_fmap_2_strong; [|by eapply NoDup_fmap_1].
    intros x y Hx Hy Heq. apply Hval in Hx, Hy. rewrite Heq in Hx.
    apply (od_get_elem _ _ _ Hnd) in Hx, Hy. congruence.
Qed.

(** Claim C9. The match deduplicator is idempotent: run on its own output
    it returns that output, the same rows in the same order. *)
Theorem deduplicate_matches_idempotent (pool out : list (gmap string string)) :
  deduplicate_matches pool = Some out →
  deduplicate_matches out = Some out.
Proof.
  intros H. apply deduplicate_matches_distinct in H as (Hids & Hnd & Hsig).
  unfold deduplicate_matches.
  rewrite (pass1_distinct out [] Hids Hnd) by (intros; apply not_elem_of_nil).
  simpl. f_equal. unfold pass2, od_values.
  rewrite <- list_fmap_compose.
  replace ((snd ∘ (fun m => (ident m, m))) <$> out) with out
    by (by rewrite <- (list_fmap_id out) at 1).
  by rewrite pass2_distinct by (done || intros; apply lookup_empty).
Qed.

(** The deduplicator returns exactly when every row has the identifier
    column. *)
Lemma deduplicate_matches_total pool :
  Forall (fun m => is_Some (m !! "espn_match_id")) pool ↔
  is_Some (deduplicate_matches pool).
Proof.
  unfold deduplicate_matches. split.
  - intros H. destruct (pass1_total pool [] H) as [seen ->]. done.
  - intros [out H]. destruct (pass1 pool []) as [seen|] eqn:Hp; [|done].
    by eapply pass1_has_ids.
Qed.

(** A record that beats every other record of its identifier and of its
    signature is the one record of that signature in the output. *)
Lemma best_record_retained pool out r :
  deduplicate_matches pool = Some out →
  r ∈ pool →
  (∀ x, x ∈ pool → x ≠ r →
        x !! "espn_match_id" = r !! "espn_match_id"
        ∨ signature x = signature r →
        match_priority r < match_priority x) →
  filter (fun x => signature x = signature r) out = [r].
Proof.
  intros H Hr Hbest.
  pose proof (deduplicate_matches_inv _ _ H) as (seen & st & Hp & [Hnd Hk] & Hst & [Hidx Hsig] & ->).
  pose proof (pass1_has_ids _ _ _ Hp) as Hids.
  destruct (proj1 (Forall_forall _ _) Hids r Hr) as [k Hrk].
  assert (od_get k seen = Some r) as Hget.
  { apply (pass1_winner r k pool) with (seen := []); try done.
    intros x Hx Hxk Hxr. apply Hbest; try done. left. congruence. }
  assert (r ∈ od_values seen) as Hsurv.
  { apply od_get_Some in Hget. apply list_elem_of_fmap. by exists (k, r). }
  assert (st.1 !! signature r = Some r) as Hwin.
  { rewrite Hst. apply pass2_winner; try done.
    intros x Hx Hxs Hxr. apply Hbest; try tauto.
    eapply pass1_values in Hx as [Hx|Hx]; [done| |done]. by apply elem_of_nil in Hx. }
  apply Hidx in Hwin as [Hin _].
  clear -Hin Hsig. induction st.2 as [|x l IH]; [by apply elem_of_nil in Hin|].
  csimpl in Hsig. apply NoDup_cons in Hsig as [Hx Hl].
  rewrite filter_cons. apply elem_of_cons in Hin as [<-|Hin].
  - rewrite decide_True by done. f_equal.
    clear IH. induction l as [|y l IH]; [done|].
    csimpl in Hx. apply not_elem_of_cons in Hx as [Hxy Hx].
    apply NoDup_cons in Hl as [_ Hl].
    rewrite filter_cons, decide_False by done. by apply IH.
  - rewrite decide_False; [by apply IH|].
    intros Heq. apply Hx. rewrite Heq. by apply list_elem_of_fmap_2.
Qed.

(** Claim C2, amended. The structural signature of the second pass is the
    first ten characters of the date with the unordered pair of the team
    names as they are written: two rows share a signature exactly when
    these agree. No name is normalized. *)
Theorem signature_compares_raw_names (m1 m2 : gmap string string) :
  signature m1 = signature m2 ↔
  PyStr.take 10 (get m1 "date" EmptyString)
  = PyStr.take 10 (get m2 "date" EmptyString)
  ∧ ((get m1 "home_team" EmptyString = get m2 "home_team" EmptyString
      ∧ get m1 "away_team" EmptyString = get m2 "away_team" EmptyString)
     ∨ (get m1 "home_team" EmptyString = get m2 "away_team" EmptyString
        ∧ get m1 "away_team" EmptyString = get m2 "home_team" EmptyString)).
Proof.
  unfold signature. rewrite <- sorted_pair_eq. split.
  - intros H. split; [exact (f_equal fst H)|exact (f_equal snd H)].
  - intros [H1 H2]. by apply pair_equal_spec.
Qed.

(** Claim C2 as stated fails: two rows of one day whose team names are
    equal after normalization, and differ in case and surrounding white
    space, have two signatures and both stay in the output. *)
Lemma signature_not_normalized :
  main.normalize_team (get lower_case_row "home_team" EmptyString)
  = main.normalize_team (get tri_nations_row "home_team" EmptyString)
  ∧ main.normalize_team (get lower_case_row "away_team" EmptyString)
    = main.normalize_team (get tri_nations_row "away_team" EmptyString)
  ∧ get lower_case_row "date" EmptyString = get tri_nations_row "date" EmptyString
  ∧ signature lower_case_row ≠ signature tri_nations_row
  ∧ deduplicate_matches [tri_nations_row; lower_case_row]
    = Some [tri_nations_row; lower_case_row].
Proof.
  split_and!; try (vm_compute; reflexivity).
  vm_compute. discriminate.
Qed.

(** Claim C3, amended. When a pooled record has priority 1 and every other
    pooled record with its identifier or with its structural signature has
    a priority number above 1, the output holds exactly one record of that
    signature: this record, with its identifier and tournament. *)
Theorem priority_one_retained (pool out : list (gmap string string))
    (r : gmap string string) :
  deduplicate_matches pool = Some out →
  r ∈ pool →
  match_priority r = 1 →
  (∀ x, x ∈ pool → x ≠ r →
        x !! "espn_match_id" = r !! "espn_match_id"
        ∨ signature x = signature r →
        1 < match_priority x) →
  filter (fun x => signature x = signature r) out = [r].
Proof.
  intros H Hr Hpri Hothers. apply (best_record_retained pool); try done.
  rewrite Hpri. exact Hothers.
Qed.

(** The scenario of the specification: the Tri Nations row wins over the
    test match row that comes first. *)
Lemma priority_one_retained_witness :
  deduplicate_matches [test_match_row; tri_nations_row] = Some [tri_nations_row]
  ∧ filter (fun x => signature x = signature tri_nations_row) [tri_nations_row]
    = [tri_nations_row].
Proof.
  assert (deduplicate_matches [test_match_row; tri_nations_row]
          = Some [tri_nations_row]) as H by (vm_compute; reflexivity).
  split; [exact H|].
  apply (priority_one_retained [test_match_row; tri_nations_row] _ _ H).
  - apply elem_of_cons. right. apply elem_of_cons. by left.
  - vm_compute. reflexivity.
  - intros x Hx Hne _.
    apply elem_of_cons in Hx as [->|Hx]; [vm_compute; reflexivity|].
    apply elem_of_cons in Hx as [->|Hx]; [by destruct Hne|].
    by apply elem_of_nil in Hx.
Defined.

(** Claim C3 as stated fails. The pool holds a priority-1 row and a test
    match row of one signature and distinct identifiers; with a third
    priority-1 row of that signature pooled first, that third row is the
    one kept; with a row of another fixture pooled first under the
    priority-1 row's identifier, the test match row is the one kept. *)
Lemma priority_one_not_always_retained :
  (signature tri_nations_2020_row = signature test_match_2020_row
   ∧ tri_nations_2020_row !! "espn_match_id"
     ≠ test_match_2020_row !! "espn_match_id"
   ∧ match_priority tri_nations_2020_row = 1
   ∧ match_priority test_match_2020_row = 2)
  ∧ deduplicate_matches
      [championship_2020_row; tri_nations_2020_row; test_match_2020_row]
    = Some [championship_2020_row]
  ∧ deduplicate_matches
      [reused_id_row; tri_nations_2020_row; test_match_2020_row]
    = Some [reused_id_row; test_match_2020_row].
Proof.
  split_and!; try (vm_compute; reflexivity).
  vm_compute. discriminate.
Qed.




(** A second run on the output of a pool of four. *)
Lemma deduplicate_matches_idempotent_witness :
  deduplicate_matches
    [test_match_row; undated_row "itm-1"; tri_nations_row; undated_row "itm-2"]
  = Some [undated_row "itm-1"; tri_nations_row]
  ∧ deduplicate_matches [undated_row "itm-1"; tri_nations_row]
    = Some [undated_row "itm-1"; tri_nations_row].
Proof.
  assert (deduplicate_matches
    [test_match_row; undated_row "itm-1"; tri_nations_row; undated_row "itm-2"]
  = Some [undated_row "itm-1"; tri_nations_row]) as H by (vm_compute; reflexivity).
  split; [exact H|]. exact (deduplicate_matches_idempotent _ _ H).
Defined.

(** ** The appearance filter *)

Section keep_first.
Context {A K : Type} `{EqDecision K} (key : A → K).




End keep_first.



(** ** The merged appearance table *)

Lemma same_appearance_covers a sa b :
  same_appearance a sa = Some b → (b = true ↔ covers a sa).
Proof.
  unfold same_appearance, covers, merge_key, get.
  destruct (a !! "source") as [src|]; [|done]. simpl.
  case_bool_decide as Hsrc; simpl; [subst src|intros [= <-]; split; [done|]; intros [[= ?] _]; done].
  destruct (a !! "home_team") as [home|]; [|done]. simpl.
  case_bool_decide as Hh; simpl; [|intros [= <-]; split; [done|]; intros [_ [= ? ? ? ?]]; done].
  destruct (a !! "away_team") as [away|]; [|done]. simpl.
  case_bool_decide as Ha; simpl; [|intros [= <-]; split; [done|]; intros [_ [= ? ? ? ?]]; done].
  destruct (a !! "season") as [seas|]; [|done]. simpl.
  case_bool_decide as Hs; simpl; [|intros [= <-]; split; [done|]; intros [_ [= ? ? ? ?]]; done].
  destruct (a !! "player_name") as [name|]; [|done]. simpl.
  intros [= <-]. rewrite bool_decide_eq_true. split.
  - intros Hn. split; [done|]. by rewrite Hh, Ha, Hs, Hn.
  - by intros [_ [= ? ? ? ?]].
Qed.

Lemma same_appearance_total a sa : comparable a → is_Some (same_appearance a sa).
Proof.
  unfold comparable. rewrite !Forall_cons. 
  intros ([src Hsrc] & [h Hh] & [aw Ha] & [s Hs] & [n Hn] & _).
  unfold same_appearance. rewrite Hsrc, Hh, Ha, Hs, Hn. simpl.
  repeat (case_bool_decide; simpl; try done).
Qed.

Lemma has_espn_covered sa espn b :
  has_espn sa espn = Some b → (b = true ↔ covered espn sa).
Proof.
  unfold covered. revert b. induction espn as [|a l IH]; intros b; simpl.
  - intros [= <-]. rewrite Exists_nil. done.
  - destruct (same_appearance a sa) as [c|] eqn:Hc; [|done]. simpl.
    apply same_appearance_covers in Hc. rewrite Exists_cons.
    destruct c.
    + intros [= <-]. tauto.
    + intros Hb. apply IH in Hb. rewrite Hb.
      split; [tauto|]. intros [Hcov|?]; [|done]. apply Hc in Hcov. done.
Qed.

Lemma has_espn_total sa espn : Forall comparable espn → is_Some (has_espn sa espn).
Proof.
  induction 1 as [|a l Ha _ IH]; simpl; [done|].
  destruct (same_appearance_total a sa Ha) as [c ->]. simpl. by destruct c.
Qed.

Lemma add_sky_appearances_spec espn sky final out :
  add_sky_appearances espn sky final = Some out →
  out = final ++ filter (fun sa => ¬ covered espn sa) sky.
Proof.
  revert final. induction sky as [|sa sky IH]; intros final; simpl.
  - intros [= <-]. by rewrite app_nil_r.
  - destruct (has_espn sa espn) as [b|] eqn:Hb; [|done]. simpl.
    apply has_espn_covered in Hb. intros H. apply IH in H as ->.
    rewrite filter_cons. destruct b.
    + rewrite decide_False; [done|]. intros Hn. apply Hn. by apply Hb.
    + rewrite decide_True; [by rewrite <- app_assoc|].
      intros Hc. apply Hb in Hc. done.
Qed.

Lemma add_sky_appearances_total espn sky final :
  Forall comparable espn → is_Some (add_sky_appearances espn sky final).
Proof.
  intros He. revert final. induction sky as [|sa sky IH]; intros final; simpl; [done|].
  destruct (has_espn_total sa espn He) as [b ->]. simpl. apply IH.
Qed.

Lemma espn_loop (espn final : list (gmap string string)) :
  fold_left (fun final a => final ++ [a]) espn final = final ++ espn.
Proof.
  revert final. induction espn as [|a l IH]; intros final; simpl.
  - by rewrite app_nil_r.
  - by rewrite IH, <- app_assoc.
Qed.

(** Claim C8, amended. The merged appearance table is Source A's table
    followed by the Source-B rows for which no row of Source A tagged
    [espn] has the same (normalized home team, normalized away team,
    season, normalized player name). When such a Source-A row exists, the
    rows of that key in the merged table are exactly Source A's rows of
    that key. *)
Theorem merged_appearances (espn_appearances sky_appearances out
                              : list (gmap string string)) :
  merge_appearances espn_appearances sky_appearances = Some out →
  out = espn_appearances
        ++ filter (fun sa => ¬ covered espn_appearances sa) sky_appearances
  ∧ (∀ sa, covered espn_appearances sa →
       filter (fun x => merge_key x = merge_key sa) out
       = filter (fun x => merge_key x = merge_key sa) espn_appearances).
Proof.
  unfold merge_appearances. rewrite espn_loop. simpl. intros H.
  apply add_sky_appearances_spec in H as ->. split; [done|].
  intros sa Hcov. rewrite filter_app.
  rewrite list_filter_filter.
  replace (filter _ sky_appearances) with (@nil (gmap string string));
    [by rewrite app_nil_r|].
  symmetry. induction sky_appearances as [|x l IH]; [done|].
  rewrite filter_cons, decide_False; [done|].
  intros [Hkey Hnot]. apply Hnot. unfold covered in *.
  eapply Exists_impl; [exact Hcov|]. intros a [Hsrc Hk]. split; [done|]. congruence.
Qed.

(** The merge returns when every Source-A row has the five columns. *)
Lemma merge_appearances_total (espn_appearances sky_appearances
                                 : list (gmap string string)) :
  Forall comparable espn_appearances →
  is_Some (merge_appearances espn_appearances sky_appearances).
Proof. intros H. by apply add_sky_appearances_total. Qed.

(** ** The merged match table *)





















(** The scenario of the specification: one Source-A row, the Source-B row
    of the same key, and a Source-B row of another player. *)
Lemma merged_appearances_witness :
  merge_appearances [espn_warburton] [sky_warburton; sky_biggar]
  = Some [espn_warburton; sky_biggar]
  ∧ covered [espn_warburton] sky_warburton
  ∧ filter (fun x => merge_key x = merge_key sky_warburton)
      [espn_warburton; sky_biggar]
    = [espn_warburton].
Proof.
  assert (merge_appearances [espn_warburton] [sky_warburton; sky_biggar]
          = Some [espn_warburton; sky_biggar]) as H by (vm_compute; reflexivity).
  assert (covered [espn_warburton] sky_warburton) as Hcov.
  { apply Exists_cons_hd. split; vm_compute; reflexivity. }
  split; [exact H|]. split; [exact Hcov|].
  destruct (merged_appearances _ _ _ H) as [_ Hkey].
  rewrite (Hkey sky_warburton Hcov). vm_compute. reflexivity.
Defined.

(** Claim C8 as stated fails: with two Source-A rows of one key the merged
    table has two rows of that key; and a row of the Source-A table that is
    not tagged [espn] does not keep the Source-B row of its key out. *)
Lemma merged_rows_not_unique :
  (merge_key espn_warburton = merge_key sky_warburton
   ∧ merge_key espn_warburton_again = merge_key sky_warburton
   ∧ merge_appearances [espn_warburton; espn_warburton_again] [sky_warburton]
     = Some [espn_warburton; espn_warburton_again])
  ∧ (merge_key untagged_warburton = merge_key sky_warburton
     ∧ merge_appearances [untagged_warburton] [sky_warburton]
       = Some [untagged_warburton; sky_warburton]).
Proof. split_and!; vm_compute; reflexivity. Qed.

